(** * Real-time speech-to-speech translation server: pipeline orchestration

    A shallow embedding of the three Python modules of the server

    - [server/models/speech_recognition.py]  (class [SpeechRecognitionModel])
    - [server/models/text_to_speech.py]      (class [TextToSpeechModel])
    - [server/server.py]                     (class [AudioSocketServer])

    and the properties of the phrase segmentation worker, the synthesis
    worker, the output dispatcher and the connection multiplexer.

    Conventions of the embedding.

    - A [datetime] is a [Z], in microseconds; [timedelta(seconds=s)] is
      [s * 1000000].
    - A socket object is a [nat] (its identity); a variable that may hold
      [None] is an [option].
    - Python code runs in the monad [M]: a state monad over [World] whose
      computations return a value or raise an exception.  A raised
      exception keeps the state reached so far, as in Python.
    - The inference engines, the wall clock and the network are kept
      abstract: the engines and the clock are the fields of the class
      [Environment], the outcome of each socket call is an argument of
      the function that makes the call.
    - The three threads are interleaved at the granularity of one loop
      iteration. *)

From Stdlib Require Import ZArith List String Bool Arith Lia.
From Stdlib.Strings Require Import Byte.
Import ListNotations.

Local Open Scope string_scope.
Local Open Scope list_scope.

(** ** Values *)

Definition socket := nat.
Definition bytes := list byte.
Definition datetime := Z.

Definition timedelta_seconds (s : Z) : Z := (s * 1000000)%Z.

(** A [torch.Tensor] is kept abstract: it is identified by the bytes of
    [audio.numpy().tobytes()]; the samples are never interpreted. *)
Record Tensor := { tobytes : bytes }.

(** The speaker embedding (x-vector) and the tokenised text. *)
Record Embedding := { xvector : list Z }.
Definition InputIds := list Z.

(** The exceptions that occur in the three modules; all of them derive
    from [Exception]. *)
Inductive exn :=
| ConnectionResetError
| BrokenPipeError
| OSError (msg : string)
| AttributeError (msg : string)
| UnboundLocalError (msg : string)
| ValueError (msg : string)
| RuntimeError (msg : string)
| PlainException (msg : string).

Definition str_exn (e : exn) : string :=
  match e with
  | ConnectionResetError => "Connection reset by peer"
  | BrokenPipeError => "Broken pipe"
  | OSError m | AttributeError m | UnboundLocalError m | ValueError m
  | RuntimeError m | PlainException m => m
  end.

Definition is_ConnectionResetError (e : exn) : bool :=
  match e with ConnectionResetError => true | _ => false end.

(** Python truthiness of a [str], of a [bytes] or list, of an object or
    [None]. *)
Definition truthy_str (s : string) : bool :=
  match s with EmptyString => false | _ => true end.

Definition truthy_list {A} (l : list A) : bool :=
  match l with [] => false | _ => true end.

Definition truthy_obj {A} (o : option A) : bool :=
  match o with Some _ => true | None => false end.

(** [client != self.current_client], on socket objects or [None]. *)
Definition obj_eqb (a b : option socket) : bool :=
  match a, b with
  | Some x, Some y => Nat.eqb x y
  | None, None => true
  | _, _ => false
  end.

(** ** Events

    What the pipeline hands over to its callbacks and to the network.
    An event is recorded at the moment of the call. *)
Inductive Event :=
| TranscriptionUpdate (add : bool) (text : string) (transcribe_time : Z)
| FinalizedPhrase (text : string) (client : option socket)
| SynthesisResult (client : option socket) (audio : Tensor)
| Sent (s : socket) (data : bytes).

Definition is_FinalizedPhrase (e : Event) : bool :=
  match e with FinalizedPhrase _ _ => true | _ => false end.

Definition is_TranscriptionUpdate (e : Event) : bool :=
  match e with TranscriptionUpdate _ _ _ => true | _ => false end.


Definition is_Sent (e : Event) : bool :=
  match e with Sent _ _ => true | _ => false end.

(** ** State *)

(** The fields of [SpeechRecognitionModel] that its worker reads and
    writes.  [data_queue] is the queue object shared with the server and
    lives in [World]. *)
Record SpeechRecognitionModel := {
  phrase_time : option datetime;
  last_sample : bytes;
  phrase_timeout : Z;
  recent_transcription : string;
  current_client : option socket;
  _kill_thread : bool
}.

(** [speaker_embeddings] is not assigned by [__init__]: the attribute is
    absent ([None] here) until [load_speaker_embeddings] runs; an
    attribute holding Python's [None] is [Some None]. *)
Record TextToSpeechModel := {
  speaker_embeddings : option (option Embedding);
  task_queue : list (option socket * string);
  tts_kill_thread : bool
}.

Record World := {
  transcriber : SpeechRecognitionModel;
  text_to_speech : TextToSpeechModel;
  data_queue : list (socket * bytes);
  serversocket : socket;
  read_list : list socket;
  (** the local variable [address] of [AudioSocketServer.start] *)
  address : option string;
  (** lines written by [console.log] and [print], oldest first *)
  console : list string;
  (** number of [datetime.utcnow()] calls made so far *)
  clock_reads : nat;
  (** events, oldest first *)
  trace : list Event
}.

Definition set_transcriber (sr : SpeechRecognitionModel) (w : World) : World :=
  {| transcriber := sr; text_to_speech := text_to_speech w;
     data_queue := data_queue w; serversocket := serversocket w;
     read_list := read_list w; address := address w; console := console w;
     clock_reads := clock_reads w; trace := trace w |}.

Definition set_text_to_speech (t : TextToSpeechModel) (w : World) : World :=
  {| transcriber := transcriber w; text_to_speech := t;
     data_queue := data_queue w; serversocket := serversocket w;
     read_list := read_list w; address := address w; console := console w;
     clock_reads := clock_reads w; trace := trace w |}.

Definition set_data_queue (q : list (socket * bytes)) (w : World) : World :=
  {| transcriber := transcriber w; text_to_speech := text_to_speech w;
     data_queue := q; serversocket := serversocket w;
     read_list := read_list w; address := address w; console := console w;
     clock_reads := clock_reads w; trace := trace w |}.

Definition set_read_list (l : list socket) (w : World) : World :=
  {| transcriber := transcriber w; text_to_speech := text_to_speech w;
     data_queue := data_queue w; serversocket := serversocket w;
     read_list := l; address := address w; console := console w;
     clock_reads := clock_reads w; trace := trace w |}.

Definition set_address (a : option string) (w : World) : World :=
  {| transcriber := transcriber w; text_to_speech := text_to_speech w;
     data_queue := data_queue w; serversocket := serversocket w;
     read_list := read_list w; address := a; console := console w;
     clock_reads := clock_reads w; trace := trace w |}.

Definition set_console (c : list string) (w : World) : World :=
  {| transcriber := transcriber w; text_to_speech := text_to_speech w;
     data_queue := data_queue w; serversocket := serversocket w;
     read_list := read_list w; address := address w; console := c;
     clock_reads := clock_reads w; trace := trace w |}.

Definition set_clock_reads (n : nat) (w : World) : World :=
  {| transcriber := transcriber w; text_to_speech := text_to_speech w;
     data_queue := data_queue w; serversocket := serversocket w;
     read_list := read_list w; address := address w; console := console w;
     clock_reads := n; trace := trace w |}.

Definition set_trace (t : list Event) (w : World) : World :=
  {| transcriber := transcriber w; text_to_speech := text_to_speech w;
     data_queue := data_queue w; serversocket := serversocket w;
     read_list := read_list w; address := address w; console := console w;
     clock_reads := clock_reads w; trace := t |}.

(** Field updates of the two model objects. *)
Definition with_phrase_time (t : option datetime) (sr : SpeechRecognitionModel) :=
  {| phrase_time := t; last_sample := last_sample sr;
     phrase_timeout := phrase_timeout sr;
     recent_transcription := recent_transcription sr;
     current_client := current_client sr; _kill_thread := _kill_thread sr |}.

Definition with_last_sample (b : bytes) (sr : SpeechRecognitionModel) :=
  {| phrase_time := phrase_time sr; last_sample := b;
     phrase_timeout := phrase_timeout sr;
     recent_transcription := recent_transcription sr;
     current_client := current_client sr; _kill_thread := _kill_thread sr |}.

Definition with_recent_transcription (s : string) (sr : SpeechRecognitionModel) :=
  {| phrase_time := phrase_time sr; last_sample := last_sample sr;
     phrase_timeout := phrase_timeout sr;
     recent_transcription := s;
     current_client := current_client sr; _kill_thread := _kill_thread sr |}.

Definition with_current_client (c : option socket) (sr : SpeechRecognitionModel) :=
  {| phrase_time := phrase_time sr; last_sample := last_sample sr;
     phrase_timeout := phrase_timeout sr;
     recent_transcription := recent_transcription sr;
     current_client := c; _kill_thread := _kill_thread sr |}.

Definition with_task_queue (q : list (option socket * string)) (t : TextToSpeechModel) :=
  {| speaker_embeddings := speaker_embeddings t; task_queue := q;
     tts_kill_thread := tts_kill_thread t |}.

Definition with_speaker_embeddings (e : option (option Embedding)) (t : TextToSpeechModel) :=
  {| speaker_embeddings := e; task_queue := task_queue t;
     tts_kill_thread := tts_kill_thread t |}.

(** ** The monad of Python computations *)

Inductive outcome (A : Type) :=
| Return (a : A)
| Raise (e : exn).
Arguments Return {A} a.
Arguments Raise {A} e.

Definition M (A : Type) := World -> outcome A * World.

Definition ret {A} (a : A) : M A := fun w => (Return a, w).

Definition raise {A} (e : exn) : M A := fun w => (Raise e, w).

Definition bind {A B} (m : M A) (k : A -> M B) : M B :=
  fun w => match m w with
           | (Return a, w') => k a w'
           | (Raise e, w') => (Raise e, w')
           end.

Declare Scope py_scope.
Delimit Scope py_scope with py.
Notation "x <- m ;; k" := (bind m (fun x => k))
  (at level 61, m at next level, right associativity) : py_scope.
Notation "m ;; k" := (bind m (fun _ => k))
  (at level 61, right associativity) : py_scope.
Local Open Scope py_scope.

(** [try: body except <cls> as e: handler e]; [catches] tells whether
    the raised exception is an instance of [<cls>]. *)
Definition try_except {A} (body : M A) (catches : exn -> bool)
  (handler : exn -> M A) : M A :=
  fun w => match body w with
           | (Return a, w') => (Return a, w')
           | (Raise e, w') => if catches e then handler e w' else (Raise e, w')
           end.

Definition catches_Exception (e : exn) : bool := true.

Definition get : M World := fun w => (Return w, w).

Definition modify (f : World -> World) : M unit := fun w => (Return tt, f w).

Definition modify_transcriber (f : SpeechRecognitionModel -> SpeechRecognitionModel)
  : M unit :=
  modify (fun w => set_transcriber (f (transcriber w)) w).

Definition modify_text_to_speech (f : TextToSpeechModel -> TextToSpeechModel)
  : M unit :=
  modify (fun w => set_text_to_speech (f (text_to_speech w)) w).

(** [console.log(...)] and [print(...)]. *)
Definition console_log (line : string) : M unit :=
  modify (fun w => set_console (console w ++ [line]) w).

Definition emit (e : Event) : M unit :=
  modify (fun w => set_trace (trace w ++ [e]) w).

(** The value of an outcome, and whether it is a normal return. *)
Definition returned {A} (r : outcome A * World) : bool :=
  match fst r with Return _ => true | Raise _ => false end.

(** ** The environment

    [utcnow_reading n] is the value of the [n]-th call of
    [datetime.utcnow()].  [transcribe_text buffer rate width] stands for
    the body of the [try] of [__transcribe_audio__] up to
    [text = result["text"].strip()]: the WAV conversion of the buffer,
    the call of the Whisper model and the measured duration; it yields
    the stripped text and [end_time - start_time], or raises.
    [processor] and [generate_speech] are the two calls of
    [synthesise_blocking]; [xvector_dataset] is the embedding read by
    [load_speaker_embeddings]. *)
Class Environment := {
  utcnow_reading : nat -> datetime;
  transcribe_text : bytes -> Z -> Z -> exn + (string * Z);
  processor : string -> exn + InputIds;
  generate_speech : InputIds -> Embedding -> exn + Tensor;
  xvector_dataset : Embedding
}.

(** The outcome of [sendall]: all the bytes are written, or [written]
    bytes are written and then the call raises. *)
Inductive SendOutcome :=
| SendAll
| SendFails (written : nat) (e : exn).

(** What the network answers on a socket that [select] reported
    readable: the result of [accept] on the listening socket, the bytes
    pending on a client socket (none on an orderly close) or the error
    [recv] raises. *)
Record SelectEnv := {
  accept_outcome : exn + (socket * string);
  recv_outcome : exn + bytes
}.

Section Program.

Context {env : Environment}.

Definition utcnow : M datetime :=
  fun w => (Return (utcnow_reading (clock_reads w)),
            set_clock_reads (S (clock_reads w)) w).

Definition lift {A} (r : exn + A) : M A :=
  match r with inl e => raise e | inr a => ret a end.

(** *** models/text_to_speech.py *)

Definition TextToSpeechModel__init__ : M unit :=
  console_log "Device used for TextToSpeech" ;;
  modify (fun w => set_text_to_speech
    {| speaker_embeddings := None; task_queue := []; tts_kill_thread := false |} w).

Definition load_speaker_embeddings : M unit :=
  modify_text_to_speech (with_speaker_embeddings (Some (Some xvector_dataset))).

Definition synthesise (text : string) (client_socket : option socket) : M unit :=
  w <- get ;;
  match speaker_embeddings (text_to_speech w) with
  | None =>
      raise (AttributeError
        "'TextToSpeechModel' object has no attribute 'speaker_embeddings'")
  | Some None =>
      raise (PlainException
        "TextToSpeech: Load speaker embeddings before synthesizing")
  | Some (Some _) =>
      modify_text_to_speech
        (fun t => with_task_queue (task_queue t ++ [(client_socket, text)]) t)
  end.

Definition synthesise_blocking (text : string) : M Tensor :=
  inputs <- lift (processor text) ;;
  w <- get ;;
  match speaker_embeddings (text_to_speech w) with
  | None =>
      raise (AttributeError
        "'TextToSpeechModel' object has no attribute 'speaker_embeddings'")
  | Some None =>
      raise (AttributeError "'NoneType' object has no attribute 'to'")
  | Some (Some emb) =>
      speech <- lift (generate_speech inputs emb) ;;
      console_log ("synthesize : " ++ text) ;;
      ret speech
  end.

(** *** server.py: the callbacks and the output dispatcher *)

Definition handle_generation (add : bool) (text : string) (transcribe_time : Z)
  : M unit :=
  ret tt.

Definition handle_transcription (packet : string) (client_socket : option socket)
  : M unit :=
  console_log ("Added " ++ packet ++ " to synthesize task queue") ;;
  synthesise packet client_socket.

Definition sendall (o : SendOutcome) (s : socket) (data : bytes) : M unit :=
  match o with
  | SendAll => emit (Sent s data)
  | SendFails written e => emit (Sent s (firstn written data)) ;; raise e
  end.

(** [list.remove(x)]: drops the first occurrence, raises [ValueError]
    when there is none. *)
Fixpoint list_remove (x : socket) (l : list socket) : option (list socket) :=
  match l with
  | [] => None
  | y :: l' =>
      if Nat.eqb y x then Some l'
      else match list_remove x l' with
           | Some r => Some (y :: r)
           | None => None
           end
  end.

Definition read_list_remove (s : socket) : M unit :=
  w <- get ;;
  match list_remove s (read_list w) with
  | Some l => modify (set_read_list l)
  | None => raise (ValueError "list.remove(x): x not in list")
  end.

(** [x in l] *)
Definition list_contains (x : socket) (l : list socket) : bool :=
  existsb (Nat.eqb x) l.

Definition stream_numpy_array_audio (o : SendOutcome) (audio : Tensor)
  (client_socket : option socket) : M unit :=
  match client_socket with
  | None => console_log "Error: client_socket is None"
  | Some s =>
      try_except
        (sendall o s (tobytes audio))
        is_ConnectionResetError
        (fun e =>
           console_log ("Error sending audio to client: " ++ str_exn e) ;;
           w <- get ;;
           if list_contains s (read_list w) then read_list_remove s
           else ret tt)
  end.

Definition handle_synthesize (o : SendOutcome) (audio : Tensor)
  (client_socket : option socket) : M unit :=
  stream_numpy_array_audio o audio client_socket.

(** *** models/text_to_speech.py: the worker

    One iteration of the [while] loop of [worker]; [callback_function]
    is [handle_synthesize], as [AudioSocketServer.__init__] wires it. *)
Definition callback_function (o : SendOutcome) (audio : Tensor)
  (client : option socket) : M unit :=
  emit (SynthesisResult client audio) ;;
  handle_synthesize o audio client.

Definition worker_iteration (o : SendOutcome) : M unit :=
  w <- get ;;
  match task_queue (text_to_speech w) with
  | [] => ret tt
  | (client, text) :: rest =>
      modify_text_to_speech (with_task_queue rest) ;;
      audio <- synthesise_blocking text ;;
      callback_function o audio client
  end.

(** The loop of [worker], over the outcomes of the successive sends; it
    ends when the flag is set, and an exception that escapes an
    iteration ends it as well. *)
Fixpoint worker (sends : list SendOutcome) : M unit :=
  match sends with
  | [] => ret tt
  | o :: sends' =>
      w <- get ;;
      if tts_kill_thread (text_to_speech w) then ret tt
      else worker_iteration o ;; worker sends'
  end.

(** *** models/speech_recognition.py *)

Definition SpeechRecognitionModel__init__ : M unit :=
  now <- utcnow ;;
  modify (fun w => set_transcriber
    {| phrase_time := Some now; last_sample := []; phrase_timeout := 1;
       recent_transcription := ""; current_client := None;
       _kill_thread := false |} w) ;;
  console_log "Loading model whisper" ;;
  console_log "Whisper DecodingOptions: {'task': 'translate'}".

(** [self.final_callback(...)] and [self.generation_callback(...)], bound
    to [handle_transcription] and [handle_generation]. *)
Definition final_callback (text : string) (client : option socket) : M unit :=
  emit (FinalizedPhrase text client) ;;
  handle_transcription text client.

Definition generation_callback (add : bool) (text : string) (transcribe_time : Z)
  : M unit :=
  emit (TranscriptionUpdate add text transcribe_time) ;;
  handle_generation add text transcribe_time.

(** [self.phrase_time and current_time - self.phrase_time >
    timedelta(seconds=self.phrase_timeout)] *)
Definition phrase_timed_out (sr : SpeechRecognitionModel) (current_time : datetime)
  : bool :=
  match phrase_time sr with
  | Some t => (current_time - t >? timedelta_seconds (phrase_timeout sr))%Z
  | None => false
  end.

Definition __update_phrase_time__ (current_time : datetime) : M bool :=
  w <- get ;;
  if phrase_timed_out (transcriber w) current_time then
    modify_transcriber (with_phrase_time (Some current_time)) ;;
    modify_transcriber (with_last_sample []) ;;
    ret true
  else ret false.

Definition __flush_last_phrase__ (current_time : datetime) : M unit :=
  w <- get ;;
  let sr := transcriber w in
  if phrase_timed_out sr current_time then
    if truthy_str (recent_transcription sr) && truthy_obj (current_client sr) then
      console_log ("Flush " ++ recent_transcription sr) ;;
      final_callback (recent_transcription sr) (current_client sr) ;;
      modify_transcriber (with_recent_transcription "") ;;
      modify_transcriber (with_phrase_time (Some current_time)) ;;
      modify_transcriber (with_last_sample [])
    else ret tt
  else ret tt.

(** The body of the [while] loop of [__concatenate_new_audio__], for the
    item [(client, data)] just taken from the queue. *)
Definition concatenate_item (client : socket) (data : bytes) : M unit :=
  w <- get ;;
  let sr := transcriber w in
  (if negb (obj_eqb (Some client) (current_client sr)) then
     console_log ("Flush " ++ recent_transcription sr) ;;
     final_callback (recent_transcription sr) (current_client sr) ;;
     modify_transcriber (with_recent_transcription "") ;;
     now <- utcnow ;;
     modify_transcriber (with_phrase_time (Some now)) ;;
     modify_transcriber (with_last_sample [])
   else ret tt) ;;
  modify_transcriber (fun sr => with_last_sample (last_sample sr ++ data) sr) ;;
  modify_transcriber (with_current_client (Some client)).

(** [while not self.data_queue.empty(): client, data = self.data_queue.get(); ...]
    over the items [pending] in the queue. *)
Fixpoint concatenate_loop (pending : list (socket * bytes)) : M unit :=
  match pending with
  | [] => ret tt
  | (client, data) :: rest =>
      modify (set_data_queue rest) ;;
      concatenate_item client data ;;
      concatenate_loop rest
  end.

Definition __concatenate_new_audio__ : M unit :=
  w <- get ;;
  concatenate_loop (data_queue w).

Definition __transcribe_audio__ (sample_rate sample_width : Z)
  (phrase_complete : bool) : M unit :=
  try_except
    (w <- get ;;
     r <- lift (transcribe_text (last_sample (transcriber w))
                  sample_rate sample_width) ;;
     let text := fst r in
     if truthy_str text then
       generation_callback phrase_complete text (snd r) ;;
       w' <- get ;;
       let sr := transcriber w' in
       (if phrase_complete && truthy_str (recent_transcription sr)
           && truthy_obj (current_client sr)
        then
          console_log ("Phrase complete: " ++ recent_transcription sr) ;;
          final_callback (recent_transcription sr) (current_client sr)
        else ret tt) ;;
       modify_transcriber (with_recent_transcription text)
     else ret tt)
    catches_Exception
    (fun e => console_log ("Error during transcription: " ++ str_exn e)).

(** One iteration of the [while] loop of [__worker__] (a tick). *)
Definition worker_tick (sample_rate sample_width : Z) : M unit :=
  now <- utcnow ;;
  __flush_last_phrase__ now ;;
  w <- get ;;
  if truthy_list (data_queue w) then
    phrase_complete <- __update_phrase_time__ now ;;
    __concatenate_new_audio__ ;;
    __transcribe_audio__ sample_rate sample_width phrase_complete
  else ret tt.

(** [__worker__], for [ticks] iterations at most. *)
Fixpoint __worker__ (ticks : nat) (sample_rate sample_width : Z) : M unit :=
  match ticks with
  | O => ret tt
  | S n =>
      w <- get ;;
      if _kill_thread (transcriber w) then ret tt
      else worker_tick sample_rate sample_width ;;
           __worker__ n sample_rate sample_width
  end.

(** *** server.py: the connection multiplexer *)

Definition recv (bufsize : nat) (o : exn + bytes) : M bytes :=
  match o with
  | inl e => raise e
  | inr pending => ret (firstn bufsize pending)
  end.

(** [console.log(msg, address)] with the local variable [address]. *)
Definition log_address (msg : string) : M unit :=
  w <- get ;;
  match address w with
  | Some a => console_log (msg ++ " " ++ a)
  | None =>
      raise (UnboundLocalError
        "cannot access local variable 'address' where it is not associated with a value")
  end.

(** The body of [for s in readable]. *)
Definition handle_readable (s : socket) (net : SelectEnv) : M unit :=
  w <- get ;;
  if Nat.eqb s (serversocket w) then
    r <- lift (accept_outcome net) ;;
    modify (fun w => set_address (Some (snd r)) w) ;;
    modify (fun w => set_read_list (read_list w ++ [fst r]) w) ;;
    log_address "Connection from"
  else
    try_except
      (data <- recv 4096 (recv_outcome net) ;;
       if truthy_list data then
         modify (fun w => set_data_queue (data_queue w ++ [(s, data)]) w)
       else
         read_list_remove s ;;
         log_address "Disconnection from")
      is_ConnectionResetError
      (fun _ =>
         read_list_remove s ;;
         log_address "Client crashed from").

(** One round of the [while True] loop of [start]: the sockets that
    [select] reported, in order. *)
Fixpoint select_round (readable : list (socket * SelectEnv)) : M unit :=
  match readable with
  | [] => ret tt
  | (s, net) :: rest => handle_readable s net ;; select_round rest
  end.

(** [AudioSocketServer.__init__] and the part of [start] before the
    loop. *)
Definition AudioSocketServer__init__ : M unit :=
  modify (set_data_queue []) ;;
  SpeechRecognitionModel__init__ ;;
  TextToSpeechModel__init__ ;;
  load_speaker_embeddings ;;
  modify (set_read_list []).

Definition start_listening : M unit :=
  console_log "Listening on port 4444" ;;
  w <- get ;;
  modify (set_read_list [serversocket w]).

End Program.

(** ** Observations *)

(** The events recorded after the first [n]. *)
Definition events_since (n : nat) (w : World) : list Event :=
  skipn n (trace w).

Definition finalized (l : list Event) : list Event :=
  filter is_FinalizedPhrase l.


(** The voice profile is loaded: the attribute holds a tensor. *)
Definition profile_loaded (w : World) : bool :=
  match speaker_embeddings (text_to_speech w) with
  | Some (Some _) => true
  | _ => false
  end.

(** The socket [s] has left the monitored set between [w] and [w'], and
    no other socket has left or entered it. *)
Definition deregistered (s : socket) (w w' : World) : Prop :=
  ~ In s (read_list w') /\
  forall x, x <> s -> (In x (read_list w') <-> In x (read_list w)).

(** What a call of [final_callback text client] that returns leaves
    behind: the event, the console line of [handle_transcription] and
    the task at the end of the synthesis queue. *)
Definition finalized_world (text : string) (client : option socket) (w : World)
  : World :=
  set_text_to_speech
    (with_task_queue
       (task_queue (text_to_speech w) ++ [(client, text)]) (text_to_speech w))
    (set_console
       (console w ++ [("Added " ++ text ++ " to synthesize task queue")%string])
       (set_trace (trace w ++ [FinalizedPhrase text client]) w)).

(** The guard of the idle flush: the two nested tests of
    [__flush_last_phrase__]. *)
Definition flush_fires (sr : SpeechRecognitionModel) (now : datetime) : bool :=
  phrase_timed_out sr now
  && (truthy_str (recent_transcription sr) && truthy_obj (current_client sr)).

(** The three assignments that end a phrase. *)
Definition phrase_reset (t : datetime) (sr : SpeechRecognitionModel)
  : SpeechRecognitionModel :=
  with_last_sample [] (with_phrase_time (Some t) (with_recent_transcription "" sr)).

(** The world after an idle flush at [now] that returns. *)
Definition flushed_world (now : datetime) (w : World) : World :=
  let sr := transcriber w in
  let w1 :=
    finalized_world (recent_transcription sr) (current_client sr)
      (set_console (console w ++ [("Flush " ++ recent_transcription sr)%string]) w)
  in set_transcriber (phrase_reset now (transcriber w1)) w1.

(** The two assignments that end an iteration of the drain loop. *)
Definition appended (client : socket) (data : bytes) (sr : SpeechRecognitionModel)
  : SpeechRecognitionModel :=
  with_current_client (Some client) (with_last_sample (last_sample sr ++ data) sr).

(** The world after the loop has drained a queue of chunks [data] that
    all come from the current client. *)
Definition drained (client : socket) (data : bytes) (w : World) : World :=
  set_transcriber (appended client data (transcriber w)) (set_data_queue [] w).

(** The world after an iteration of the drain loop that switches to
    another client and returns. *)
Definition switched_world `{Environment} (client : socket) (data : bytes)
  (w : World) : World :=
  let sr := transcriber w in
  let w1 :=
    finalized_world (recent_transcription sr) (current_client sr)
      (set_console (console w ++ [("Flush " ++ recent_transcription sr)%string]) w)
  in
  let w2 := set_clock_reads (S (clock_reads w1)) w1 in
  set_transcriber
    (appended client data
       (phrase_reset (utcnow_reading (clock_reads w1)) (transcriber w2))) w2.

(** The world after a transcription step in which the engine returns
    [text] after [dt] and the callbacks return. *)
Definition transcribed_world (phrase_complete : bool) (text : string) (dt : Z)
  (w : World) : World :=
  if truthy_str text then
    let w1 := set_trace (trace w ++ [TranscriptionUpdate phrase_complete text dt]) w in
    let sr := transcriber w1 in
    let w2 :=
      if phrase_complete && truthy_str (recent_transcription sr)
         && truthy_obj (current_client sr)
      then
        finalized_world (recent_transcription sr) (current_client sr)
          (set_console
             (console w1 ++
              [("Phrase complete: " ++ recent_transcription sr)%string]) w1)
      else w1
    in set_transcriber (with_recent_transcription text (transcriber w2)) w2
  else w.

(** The audio of a text, when both calls of [synthesise_blocking]
    succeed. *)
Definition synthesised `{Environment} (emb : Embedding) (text : string)
  : option Tensor :=
  match processor text with
  | inr ids =>
      match generate_speech ids emb with
      | inr audio => Some audio
      | inl _ => None
      end
  | inl _ => None
  end.

Definition engine_succeeds `{Environment} (emb : Embedding)
  (task : option socket * string) : bool :=
  match synthesised emb (snd task) with Some _ => true | None => false end.

(** A send that the dispatcher survives: it completes, or it fails with
    the one error the dispatcher catches. *)
Definition send_survives (o : SendOutcome) : bool :=
  match o with
  | SendAll => true
  | SendFails _ e => is_ConnectionResetError e
  end.

(** What the dispatcher writes for the outcome [o] of the send. *)
Definition dispatch_events (o : SendOutcome) (client : option socket)
  (audio : Tensor) : list Event :=
  match client, o with
  | None, _ => []
  | Some s, SendAll => [Sent s (tobytes audio)]
  | Some s, SendFails n _ => [Sent s (firstn n (tobytes audio))]
  end.

(** The events of a synthesis worker that takes the tasks [q] in order,
    the sends having the outcomes [sends]. *)
Fixpoint expected_events `{Environment} (emb : Embedding)
  (q : list (option socket * string)) (sends : list SendOutcome) : list Event :=
  match q, sends with
  | (client, text) :: q', o :: sends' =>
      match synthesised emb text with
      | Some audio =>
          SynthesisResult client audio
            :: dispatch_events o client audio ++ expected_events emb q' sends'
      | None => []
      end
  | _, _ => []
  end.

(** The computation [m] keeps the property [P] of the world, whether it
    returns or raises. *)
Definition preserves {A} (P : World -> Prop) (m : M A) : Prop :=
  forall w, P w -> P (snd (m w)).

(** The property that the loops of the server keep: the voice profile
    is loaded. *)
Definition loaded_prop (w : World) : Prop := profile_loaded w = true.

(** The chunks of a list of queue items, concatenated. *)
Definition chunks (items : list (socket * bytes)) : bytes :=
  List.concat (map snd items).

(** Every item comes from the client [c]. *)
Definition all_from (c : socket) (items : list (socket * bytes)) : bool :=
  forallb (fun it => Nat.eqb (fst it) c) items.

(** ** The server as a transition system

    The world before the constructor runs, the world when the loops
    start, and the completed loop iterations of the three threads. *)
Definition blank_world (srv : socket) : World :=
  {| transcriber :=
       {| phrase_time := None; last_sample := []; phrase_timeout := 0;
          recent_transcription := ""; current_client := None;
          _kill_thread := false |};
     text_to_speech :=
       {| speaker_embeddings := None; task_queue := [];
          tts_kill_thread := false |};
     data_queue := []; serversocket := srv; read_list := [];
     address := None; console := []; clock_reads := 0; trace := [] |}.

Definition boot `{Environment} (srv : socket) : World :=
  snd ((AudioSocketServer__init__ ;; start_listening) (blank_world srv)).

Inductive step `{Environment} : World -> World -> Prop :=
| step_readable (s : socket) (net : SelectEnv) (w w' : World) :
    In s (read_list w) ->
    handle_readable s net w = (Return tt, w') ->
    step w w'
| step_tick (w w' : World) :
    _kill_thread (transcriber w) = false ->
    worker_tick 16000 2 w = (Return tt, w') ->
    step w w'
| step_synthesis (o : SendOutcome) (w w' : World) :
    tts_kill_thread (text_to_speech w) = false ->
    worker_iteration o w = (Return tt, w') ->
    step w w'.

Inductive reachable `{Environment} (srv : socket) : World -> Prop :=
| reachable_boot : reachable srv (boot srv)
| reachable_step (w w' : World) :
    reachable srv w -> step w w' -> reachable srv w'.

(** The synthesis task queue never holds more than [cap] entries. *)
Definition task_queue_bounded `{Environment} (srv : socket) (cap : nat) : Prop :=
  forall w, reachable srv w ->
    List.length (task_queue (text_to_speech w)) <= cap.

(** ** Concrete environments *)

(** A clock that advances by 600 ms between two readings, a synthesis
    engine that returns the text's length as one sample, and the given
    transcription engine. *)
Definition sample_environment
  (engine : bytes -> Z -> Z -> exn + (string * Z)) : Environment :=
  {| utcnow_reading := fun n => (Z.of_nat n * 600000)%Z;
     transcribe_text := engine;
     processor := fun text => inr [Z.of_nat (String.length text)];
     generate_speech := fun ids _ =>
       inr {| tobytes := map (fun _ => x2a) ids |};
     xvector_dataset := {| xvector := [7306%Z] |} |}.

(** The engine hears nothing, hears "hello", or fails. *)
Definition silent_engine (_ : bytes) (_ _ : Z) : exn + (string * Z) :=
  inr ("", 3%Z).

Definition hello_engine (_ : bytes) (_ _ : Z) : exn + (string * Z) :=
  inr ("hello", 3%Z).

Definition failing_engine (_ : bytes) (_ _ : Z) : exn + (string * Z) :=
  inl (RuntimeError "CUDA out of memory").

Definition silent_env : Environment := sample_environment silent_engine.
Definition hello_env : Environment := sample_environment hello_engine.
Definition failing_env : Environment := sample_environment failing_engine.

(** [n] chunks of one byte that come in turn from the clients [a] and
    [b], and the network answers that deliver them. *)
Fixpoint alternating (a b : socket) (n : nat) : list (socket * bytes) :=
  match n with
  | O => []
  | S k => (a, [x00]) :: alternating b a k
  end.

Definition accepts (c : socket) : SelectEnv :=
  {| accept_outcome := inr (c, "('10.0.0.1', 50000)");
     recv_outcome := inl (OSError "listening socket") |}.

Definition one_byte_pending : SelectEnv :=
  {| accept_outcome := inl (OSError "not a listening socket");
     recv_outcome := inr [x00] |}.

(** Every item of the queue comes from another client than the one
    before it, the first from another client than [owner]. *)
Fixpoint switching (owner : option socket) (items : list (socket * bytes))
  : bool :=
  match items with
  | [] => true
  | (c, _) :: rest => negb (obj_eqb (Some c) owner) && switching (Some c) rest
  end.

(** ** Sample worlds *)

(** The listening socket is [0]; the clients [5] and [6] are connected. *)
Definition two_clients : World :=
  set_address (Some "('10.0.0.6', 50000)")
    (set_read_list [0; 5; 6] (blank_world 0)).

(** Only the listening socket is left in the monitored set. *)
Definition no_client : World := set_read_list [0] (blank_world 0).

Definition two_samples : Tensor := {| tobytes := [x01; x02] |}.

(** Two bytes are pending on the socket that is read. *)
Definition two_bytes_pending : SelectEnv :=
  {| accept_outcome := inl (OSError "not a listening socket");
     recv_outcome := inr [x01; x02] |}.

(** The client [5] has said "hello" and its buffer holds one byte; the
    voice profile is loaded; the phrase started at time [0]. *)
Definition talking : World :=
  set_text_to_speech
    {| speaker_embeddings := Some (Some {| xvector := [7306%Z] |});
       task_queue := []; tts_kill_thread := false |}
    (set_transcriber
       {| phrase_time := Some 0%Z; last_sample := [x01]; phrase_timeout := 1;
          recent_transcription := "hello"; current_client := Some 5;
          _kill_thread := false |}
       two_clients).

(** The client [5] connects. *)
Definition connect_5 : SelectEnv :=
  {| accept_outcome := inr (5, "('10.0.0.5', 50000)");
     recv_outcome := inl (OSError "listening socket") |}.

(** A server that has just started, and the same server with the first
    chunk of its first client in the ingestion queue. *)
Definition fresh_server : World := @boot hello_env 0.

Definition first_chunk_pending : World :=
  set_data_queue [(5, [x00])] fresh_server.

(** A client that sends silence: the client [5] connects and sends two
    bytes, which one tick of the worker takes; two ticks pass without
    data; the client sends two bytes again, which the next tick takes.
    The engine finds no text in any of the buffers. *)
Definition after_first_chunk : World :=
  snd ((handle_readable 0 connect_5 ;;
        handle_readable 5 two_bytes_pending ;;
        @worker_tick silent_env 16000 2) (@boot silent_env 0)).

Definition after_silence : World :=
  snd ((@worker_tick silent_env 16000 2 ;;
        @worker_tick silent_env 16000 2) after_first_chunk).

Definition after_second_chunk : World :=
  snd ((handle_readable 5 two_bytes_pending ;;
        @worker_tick silent_env 16000 2) after_silence).

(** The same client, 1.8 s later, with two more bytes in the queue. *)
Definition talking_again : World :=
  set_data_queue [(5, [x02; x03])] (set_clock_reads 3 talking).

(** The same client when [load_speaker_embeddings] has not run, and when
    the attribute has been set to [None]; the phrase has timed out. *)
Definition before_loading : World :=
  set_text_to_speech
    {| speaker_embeddings := None; task_queue := []; tts_kill_thread := false |}
    (set_clock_reads 3 talking).

Definition profile_set_to_None : World :=
  set_text_to_speech
    {| speaker_embeddings := Some None; task_queue := [];
       tts_kill_thread := false |}
    (set_clock_reads 3 talking).

(** ** The rest of the code

    The methods that start and stop the loops, and the whole of
    [AudioSocketServer.start].  Creating and joining a thread is the
    interleaving itself; what the embedding keeps of
    [SpeechRecognitionModel.start] and [stop] is the flag that the loop
    of [__worker__] tests. *)

Definition with_kill_thread (b : bool) (sr : SpeechRecognitionModel) :=
  {| phrase_time := phrase_time sr; last_sample := last_sample sr;
     phrase_timeout := phrase_timeout sr;
     recent_transcription := recent_transcription sr;
     current_client := current_client sr; _kill_thread := b |}.

Definition transcriber_start : M unit :=
  modify_transcriber (with_kill_thread false).

Definition stop : M unit :=
  modify_transcriber (with_kill_thread true).

(** The [while True] loop of [start], for the rounds of readable sockets
    that [select] returns until the interrupt arrives; the
    [KeyboardInterrupt] reaches the loop while [select] blocks, after
    the last round. *)
Fixpoint serve (rounds : list (list (socket * SelectEnv))) : M unit :=
  match rounds with
  | [] => ret tt
  | readable :: rounds' => select_round readable ;; serve rounds'
  end.

(** The statements of [start] after the loop; [shutdown] is the outcome
    of [serversocket.shutdown]. *)
Definition cleanup (shutdown : exn + unit) : M unit :=
  console_log "Performing server cleanup" ;;
  stop ;;
  lift shutdown ;;
  console_log "Sockets cleaned up".

(** [AudioSocketServer.start]; [bound] is the outcome of
    [serversocket.bind]. *)
Definition start (bound : exn + unit) (rounds : list (list (socket * SelectEnv)))
  (shutdown : exn + unit) : M unit :=
  transcriber_start ;;
  console_log "Listening on port 4444" ;;
  lift bound ;;
  (w <- get ;; modify (set_read_list [serversocket w])) ;;
  serve rounds ;;
  cleanup shutdown.

(** The calls that a user of [TextToSpeechModel] can make, and the world
    after a sequence of them; the loop of [worker] runs in between. *)
Inductive tts_call :=
| CallLoad
| CallSynthesise (text : string) (client_socket : option socket)
| CallWorkerIteration (o : SendOutcome).

Definition run_call `{Environment} (c : tts_call) : M unit :=
  match c with
  | CallLoad => load_speaker_embeddings
  | CallSynthesise text client_socket => synthesise text client_socket
  | CallWorkerIteration o => worker_iteration o
  end.

Fixpoint run_calls `{Environment} (cs : list tts_call) (w : World) : World :=
  match cs with
  | [] => w
  | c :: cs' => run_calls cs' (snd (run_call c w))
  end.

(** A chunk that the multiplexer may have pushed: it comes from a client
    socket and holds between 1 and 4096 bytes. *)
Definition pushed_chunk (srv : socket) (it : socket * bytes) : Prop :=
  fst it <> srv /\ 1 <= List.length (snd it) <= 4096.

(** The ingestion queue of [w'] is the one of [w] with pushed chunks
    added at its end. *)
Definition queue_extends (w w' : World) : Prop :=
  serversocket w' = serversocket w /\
  exists added,
    data_queue w' = data_queue w ++ added /\
    Forall (pushed_chunk (serversocket w)) added.

(** A text that is pending has an owner. *)
Definition pending_has_owner (w : World) : Prop :=
  recent_transcription (transcriber w) <> "" ->
  current_client (transcriber w) <> None.

(** The events of a tick: finalized phrases, then at most one
    transcription update. *)
Definition tick_shape (evs : list Event) : Prop :=
  exists fps tus,
    evs = fps ++ tus /\
    forallb is_FinalizedPhrase fps = true /\
    (tus = [] \/
     exists add text dt, tus = [TranscriptionUpdate add text dt]).

(** The client [5] comes back with a connection reset. *)
Definition reset_pending : SelectEnv :=
  {| accept_outcome := inl (OSError "not a listening socket");
     recv_outcome := inl ConnectionResetError |}.

(** The client [5] has closed the connection. *)
Definition closed_pending : SelectEnv :=
  {| accept_outcome := inl (OSError "not a listening socket");
     recv_outcome := inr [] |}.

(** The phrases "hello" and "again" of the client [5] wait in the
    synthesis queue. *)
Definition two_tasks : World :=
  snd ((handle_transcription "hello" (Some 5) ;;
        handle_transcription "again" (Some 5)) talking).

(** An environment in which the tokenizer of the synthesis fails. *)
Definition tokenizer_fails : Environment :=
  {| utcnow_reading := fun n => Z.of_nat n;
     transcribe_text := hello_engine;
     processor := fun _ => inl (RuntimeError "tokenizer");
     generate_speech := fun _ _ => inr two_samples;
     xvector_dataset := {| xvector := [7306%Z] |} |}.

(** The timeout is kept and the phrase time stays set. *)
Definition settings_kept (w w' : World) : Prop :=
  phrase_timeout (transcriber w') = phrase_timeout (transcriber w) /\
  (phrase_time (transcriber w) <> None ->
   phrase_time (transcriber w') <> None).

(** What holds of the server whenever one of its loops is about to run
    an iteration. *)
Definition server_invariant (w : World) : Prop :=
  profile_loaded w = true /\
  phrase_timeout (transcriber w) = 1%Z /\
  phrase_time (transcriber w) <> None /\
  pending_has_owner w.

(** The network answers for reads on the socket [c] that find the
    pending bytes [ds], one after the other. *)
Definition reads (c : socket) (ds : list bytes) : list (socket * SelectEnv) :=
  map (fun d => (c, {| accept_outcome := inl (OSError "not a listening socket");
                       recv_outcome := inr d |})) ds.

(** The client [5] goes on talking: two more bytes are in the queue
    and the clock has not moved. *)
Definition talking_on : World := set_data_queue [(5, [x02; x03])] talking.

(** * Properties *)

(** ** Lists and the monad *)

Lemma list_contains_In (x : socket) (l : list socket) :
  list_contains x l = true <-> In x l.
Proof.
  unfold list_contains. rewrite existsb_exists. split.
  - intros [y [Hy Heq]]. apply Nat.eqb_eq in Heq. now subst.
  - intros Hin. exists x. split; [assumption | apply Nat.eqb_refl].
Qed.

Lemma list_remove_present (x : socket) (l : list socket) :
  In x l -> exists l', list_remove x l = Some l'.
Proof.
  induction l as [| y l IH]; simpl; intros Hin.
  - contradiction.
  - destruct (Nat.eqb y x) eqn:E.
    + now exists l.
    + destruct Hin as [-> | Hin].
      * rewrite Nat.eqb_refl in E. discriminate.
      * destruct (IH Hin) as [l' ->]. now exists (y :: l').
Qed.

Lemma list_remove_others (x : socket) (l l' : list socket) :
  list_remove x l = Some l' ->
  forall y, y <> x -> (In y l' <-> In y l).
Proof.
  revert l'. induction l as [| z l IH]; simpl; intros l' Hrem y Hy.
  - discriminate.
  - destruct (Nat.eqb z x) eqn:E.
    + injection Hrem as <-. apply Nat.eqb_eq in E. subst z.
      split; [now right | intros [H | H]; [congruence | assumption]].
    + destruct (list_remove x l) as [r |] eqn:R; [| discriminate].
      injection Hrem as <-. simpl. rewrite (IH r eq_refl y Hy). tauto.
Qed.

Lemma list_remove_gone (x : socket) (l l' : list socket) :
  NoDup l -> list_remove x l = Some l' -> ~ In x l'.
Proof.
  revert l'. induction l as [| z l IH]; simpl; intros l' Hnd Hrem.
  - discriminate.
  - inversion Hnd as [| ? ? Hz Hnd']; subst.
    destruct (Nat.eqb z x) eqn:E.
    + injection Hrem as <-. apply Nat.eqb_eq in E. now subst z.
    + destruct (list_remove x l) as [r |] eqn:R; [| discriminate].
      injection Hrem as <-. apply Nat.eqb_neq in E.
      intros [H | H]; [congruence | exact (IH r Hnd' eq_refl H)].
Qed.

Lemma firstn_at_most {A} (n : nat) (l : list A) : List.length (firstn n l) <= n.
Proof.
  rewrite length_firstn. apply Nat.le_min_l.
Qed.

(** Unfolding of the monad's operations. *)
Ltac py_unfold :=
  unfold modify_transcriber, modify_text_to_speech, console_log, emit,
    try_except, lift;
  unfold bind, ret, raise, get, modify.

Ltac world_unfold :=
  unfold set_transcriber, set_text_to_speech, set_data_queue, set_read_list,
    set_address, set_console, set_clock_reads, set_trace, with_phrase_time,
    with_last_sample, with_recent_transcription, with_current_client,
    with_task_queue, with_speaker_embeddings.

Ltac py_run := py_unfold; world_unfold; simpl.

(** Reduction of the projections of an updated world. *)
Ltac fields :=
  cbn [transcriber text_to_speech data_queue serversocket read_list address
       console clock_reads trace phrase_time last_sample phrase_timeout
       recent_transcription current_client _kill_thread speaker_embeddings
       task_queue tts_kill_thread
       set_transcriber set_text_to_speech set_data_queue set_read_list
       set_address set_console set_clock_reads set_trace with_phrase_time
       with_last_sample with_recent_transcription with_current_client
       with_task_queue with_speaker_embeddings fst snd].

(** ** The output dispatcher *)

Lemma stream_numpy_array_audio_None (o : SendOutcome) (audio : Tensor) (w : World) :
  stream_numpy_array_audio o audio None w =
  (Return tt, set_console (console w ++ ["Error: client_socket is None"]) w).
Proof. reflexivity. Qed.

Lemma stream_numpy_array_audio_sent (audio : Tensor) (s : socket) (w : World) :
  stream_numpy_array_audio SendAll audio (Some s) w =
  (Return tt, set_trace (trace w ++ [Sent s (tobytes audio)]) w).
Proof. reflexivity. Qed.

Lemma stream_numpy_array_audio_reset (n : nat) (audio : Tensor) (s : socket)
  (w : World) :
  let r := stream_numpy_array_audio (SendFails n ConnectionResetError) audio
             (Some s) w in
  fst r = Return tt /\
  console (snd r) =
    console w ++ ["Error sending audio to client: Connection reset by peer"] /\
  trace (snd r) = trace w ++ [Sent s (firstn n (tobytes audio))] /\
  (NoDup (read_list w) -> ~ In s (read_list (snd r))) /\
  (forall x, x <> s -> (In x (read_list (snd r)) <-> In x (read_list w))).
Proof.
  unfold stream_numpy_array_audio, sendall, read_list_remove. py_run.
  destruct (list_contains s (read_list w)) eqn:C.
  - apply list_contains_In in C.
    destruct (list_remove_present s _ C) as [l' Hl']. simpl. rewrite Hl'.
    simpl. repeat split; try reflexivity.
    + intros Hnd. exact (list_remove_gone s _ l' Hnd Hl').
    + apply (list_remove_others s _ l' Hl'); assumption.
    + apply (list_remove_others s _ l' Hl'); assumption.
  - simpl. repeat split; try reflexivity; try tauto.
    intros _ Hin. apply list_contains_In in Hin. congruence.
Qed.

Lemma stream_numpy_array_audio_other_error (n : nat) (e : exn) (audio : Tensor)
  (s : socket) (w : World) :
  is_ConnectionResetError e = false ->
  stream_numpy_array_audio (SendFails n e) audio (Some s) w =
  (Raise e, set_trace (trace w ++ [Sent s (firstn n (tobytes audio))]) w).
Proof.
  intros He. unfold stream_numpy_array_audio, sendall. py_run.
  now rewrite He.
Qed.

(** C10.  Whatever the audio tensor, calling the output send operation
    [stream_numpy_array_audio] with [None] as client socket returns
    normally (no exception is raised), sends no byte (no event is
    recorded), leaves the monitored socket set [read_list] as it was, and
    only writes the error line to the console. *)
Theorem send_to_None_only_logs (o : SendOutcome) (audio : Tensor) (w : World) :
  let r := stream_numpy_array_audio o audio None w in
  fst r = Return tt /\
  trace (snd r) = trace w /\
  read_list (snd r) = read_list w /\
  snd r = set_console (console w ++ ["Error: client_socket is None"]) w.
Proof.
  rewrite stream_numpy_array_audio_None. simpl. repeat split.
Qed.

(** C7, as the code has it.  With [None] for the client socket the call
    only logs and discards the audio.  With a socket object the bytes are
    written whether or not the socket is still in the monitored set.
    When the write fails with a connection reset, the error is caught and
    logged, the client is not in the monitored set afterwards and the
    other sockets of the set stay; an error of another kind is not
    caught. *)
Theorem dispatcher_behaviour (o : SendOutcome) (audio : Tensor)
  (client_socket : option socket) (w : World) :
  NoDup (read_list w) ->
  let r := stream_numpy_array_audio o audio client_socket w in
  match client_socket, o with
  | None, _ =>
      r = (Return tt,
           set_console (console w ++ ["Error: client_socket is None"]) w)
  | Some s, SendAll =>
      r = (Return tt, set_trace (trace w ++ [Sent s (tobytes audio)]) w)
  | Some s, SendFails n e =>
      if is_ConnectionResetError e then
        fst r = Return tt /\
        console (snd r) =
          console w ++ [("Error sending audio to client: " ++ str_exn e)%string] /\
        deregistered s w (snd r)
      else fst r = Raise e /\ read_list (snd r) = read_list w
  end.
Proof.
  intros Hnd r. subst r. destruct client_socket as [s |].
  - destruct o as [| n e].
    + apply stream_numpy_array_audio_sent.
    + destruct (is_ConnectionResetError e) eqn:He.
      * destruct e; try discriminate.
        destruct (stream_numpy_array_audio_reset n audio s w)
          as (H1 & H2 & _ & H4 & H5).
        repeat split; try assumption; try (now apply H4); now apply H5.
      * rewrite (stream_numpy_array_audio_other_error n e audio s w He).
        now split.
  - destruct o; apply stream_numpy_array_audio_None.
Qed.

Lemma dispatcher_behaviour_witness :
  NoDup (read_list two_clients) /\
  (let r := stream_numpy_array_audio (SendFails 1 ConnectionResetError)
              two_samples (Some 5) two_clients in
   fst r = Return tt /\
   console (snd r) =
     ["Error sending audio to client: Connection reset by peer"] /\
   deregistered 5 two_clients (snd r)).
Proof.
  assert (Hnd : NoDup (read_list two_clients)).
  { simpl. repeat constructor; simpl; intuition discriminate. }
  split.
  - exact Hnd.
  - exact (dispatcher_behaviour (SendFails 1 ConnectionResetError)
             two_samples (Some 5) two_clients Hnd).
Defined.

(** C7, as the specification states it, fails: the socket [5] is not in
    the monitored set any more, and yet the call writes the two bytes to
    it and logs nothing. *)
Lemma removed_socket_is_still_written :
  let r := stream_numpy_array_audio SendAll two_samples (Some 5) no_client in
  list_contains 5 (read_list no_client) = false /\
  fst r = Return tt /\
  trace (snd r) = [Sent 5 [x01; x02]] /\
  console (snd r) = [].
Proof. repeat split. Qed.

(** ** The connection multiplexer *)

Lemma recv_at_most (bufsize : nat) (o : exn + bytes) (w w' : World)
  (data : bytes) :
  recv bufsize o w = (Return data, w') -> List.length data <= bufsize.
Proof.
  destruct o as [e | pending]; simpl; unfold raise, ret; intros H.
  - discriminate.
  - injection H as <- _. apply firstn_at_most.
Qed.

Lemma handle_readable_data (s : socket) (net : SelectEnv) (w : World)
  (pending : bytes) :
  Nat.eqb s (serversocket w) = false ->
  recv_outcome net = inr pending ->
  truthy_list (firstn 4096 pending) = true ->
  handle_readable s net w =
  (Return tt, set_data_queue (data_queue w ++ [(s, firstn 4096 pending)]) w).
Proof.
  intros Hs Hr Ht. unfold handle_readable, recv. py_unfold.
  rewrite Hs, Hr. cbv beta iota. rewrite Ht. reflexivity.
Qed.

Lemma handle_readable_remove (s : socket) (net : SelectEnv) (w : World) :
  Nat.eqb s (serversocket w) = false ->
  In s (read_list w) ->
  (exists pending, recv_outcome net = inr pending /\
                   truthy_list (firstn 4096 pending) = false) \/
  recv_outcome net = inl ConnectionResetError ->
  exists l,
    list_remove s (read_list w) = Some l /\
    snd (handle_readable s net w) = set_read_list l w
      \/
    list_remove s (read_list w) = Some l /\
    exists a line, address w = Some a /\
      handle_readable s net w =
        (Return tt, set_console (console w ++ [line]) (set_read_list l w)).
Proof.
  intros Hs Hin Hcase.
  destruct (list_remove_present s _ Hin) as [l Hl]. exists l.
  unfold handle_readable, recv, read_list_remove, log_address. py_unfold.
  rewrite Hs.
  destruct Hcase as [[pending [Hr Ht]] | Hr]; rewrite Hr; cbv beta iota.
  - rewrite Ht. rewrite Hl. world_unfold. simpl.
    destruct (address w) as [a |] eqn:Ha.
    + right. split; [reflexivity |]. exists a. eexists. split; reflexivity.
    + left. split; reflexivity.
  - simpl. rewrite Hl. world_unfold. simpl.
    destruct (address w) as [a |] eqn:Ha.
    + right. split; [reflexivity |]. exists a. eexists. split; reflexivity.
    + left. split; reflexivity.
Qed.

(** C8.  For a client socket that [select] reports readable, what is
    read is at most 4096 bytes.  If the read returns zero bytes or raises
    a connection reset, the socket, and only it, leaves the monitored set
    and nothing is pushed on the ingestion queue.  If the read returns
    bytes, [(s, bytes)] is pushed at the end of the queue and the
    monitored set is unchanged.  (A read error of another kind is not
    caught: it leaves the iteration with the world untouched.) *)
Theorem client_socket_readable (s : socket) (net : SelectEnv) (w : World) :
  s <> serversocket w ->
  In s (read_list w) ->
  NoDup (read_list w) ->
  let r := handle_readable s net w in
  match recv_outcome net with
  | inr pending =>
      let data := firstn 4096 pending in
      List.length data <= 4096 /\
      match data with
      | [] =>
          deregistered s w (snd r) /\ data_queue (snd r) = data_queue w
      | _ :: _ =>
          fst r = Return tt /\
          data_queue (snd r) = data_queue w ++ [(s, data)] /\
          read_list (snd r) = read_list w
      end
  | inl e =>
      if is_ConnectionResetError e then
        deregistered s w (snd r) /\ data_queue (snd r) = data_queue w
      else r = (Raise e, w)
  end.
Proof.
  intros Hs Hin Hnd r. apply Nat.eqb_neq in Hs.
  assert (Hrem : forall l, list_remove s (read_list w) = Some l ->
            snd r = set_read_list l w \/
            (exists line, snd r = set_console (console w ++ [line])
                                    (set_read_list l w)) ->
            deregistered s w (snd r) /\ data_queue (snd r) = data_queue w).
  { intros l Hl [-> | [line ->]]; simpl; (split; [split |]);
      try reflexivity;
      try exact (list_remove_gone s _ l Hnd Hl);
      exact (list_remove_others s _ l Hl). }
  destruct (recv_outcome net) as [e | pending] eqn:Hr.
  - destruct (is_ConnectionResetError e) eqn:He.
    + destruct e; try discriminate.
      destruct (handle_readable_remove s net w Hs Hin (or_intror Hr))
        as [l [[Hl Hw] | [Hl (a & line & _ & Hw)]]];
        apply (Hrem l Hl); subst r; [now left | right; exists line].
      now rewrite Hw.
    + subst r. unfold handle_readable, recv. py_unfold.
      rewrite Hs, Hr. cbv beta iota. now rewrite He.
  - cbv zeta. split; [apply firstn_at_most |].
    destruct (firstn 4096 pending) as [| b data] eqn:Hd.
    + assert (Hc : exists p, recv_outcome net = inr p /\
                     truthy_list (firstn 4096 p) = false).
      { exists pending. rewrite Hd. now split. }
      destruct (handle_readable_remove s net w Hs Hin (or_introl Hc))
        as [l [[Hl Hw] | [Hl (a & line & _ & Hw)]]];
        apply (Hrem l Hl); subst r; [now left | right; exists line].
      now rewrite Hw.
    + subst r. rewrite (handle_readable_data s net w pending Hs Hr).
      * rewrite Hd. simpl. repeat split.
      * now rewrite Hd.
Qed.

Lemma client_socket_readable_witness :
  5 <> serversocket two_clients /\
  In 5 (read_list two_clients) /\
  NoDup (read_list two_clients) /\
  (let r := handle_readable 5 two_bytes_pending two_clients in
   fst r = Return tt /\
   data_queue (snd r) = [(5, [x01; x02])] /\
   read_list (snd r) = [0; 5; 6]).
Proof.
  assert (H1 : 5 <> serversocket two_clients) by (simpl; discriminate).
  assert (H2 : In 5 (read_list two_clients)) by (simpl; auto).
  assert (H3 : NoDup (read_list two_clients)).
  { simpl. repeat constructor; simpl; intuition discriminate. }
  split; [exact H1 |]. split; [exact H2 |]. split; [exact H3 |].
  pose proof (client_socket_readable 5 two_bytes_pending two_clients H1 H2 H3)
    as H.
  cbv zeta in H. simpl in H. destruct H as [_ H]. exact H.
Defined.

(** ** The synthesis queue *)

Section Synthesis.

Context {env : Environment}.

Lemma profile_loaded_inv (w : World) :
  profile_loaded w = true ->
  exists emb, speaker_embeddings (text_to_speech w) = Some (Some emb).
Proof.
  unfold profile_loaded.
  destruct (speaker_embeddings (text_to_speech w)) as [[emb |] |];
    try discriminate.
  intros _. now exists emb.
Qed.

Lemma synthesise_loaded (text : string) (client : option socket) (w : World) :
  profile_loaded w = true ->
  synthesise text client w =
  (Return tt,
   set_text_to_speech
     (with_task_queue (task_queue (text_to_speech w) ++ [(client, text)])
        (text_to_speech w)) w).
Proof.
  intros H. destruct (profile_loaded_inv w H) as [emb He].
  unfold synthesise. py_unfold. now rewrite He.
Qed.

Lemma synthesise_not_loaded (text : string) (client : option socket) (w : World) :
  profile_loaded w = false ->
  exists e, synthesise text client w = (Raise e, w).
Proof.
  unfold profile_loaded, synthesise. py_unfold.
  destruct (speaker_embeddings (text_to_speech w)) as [[emb |] |];
    try discriminate; intros _; eexists; reflexivity.
Qed.

Lemma final_callback_loaded (text : string) (client : option socket) (w : World) :
  profile_loaded w = true ->
  final_callback text client w = (Return tt, finalized_world text client w).
Proof.
  intros H. destruct (profile_loaded_inv w H) as [emb He].
  unfold final_callback, handle_transcription, synthesise. py_unfold.
  simpl. rewrite He. reflexivity.
Qed.

End Synthesis.

(** ** The segmentation worker *)

Section Segmentation.

Context {env : Environment}.

Lemma phrase_timed_out_spec (sr : SpeechRecognitionModel) (now : datetime) :
  phrase_timed_out sr now = true <->
  exists t, phrase_time sr = Some t /\
            (now - t > phrase_timeout sr * 1000000)%Z.
Proof.
  unfold phrase_timed_out, timedelta_seconds.
  destruct (phrase_time sr) as [t |]; split.
  - intros H. exists t. split; [reflexivity |].
    apply Z.gtb_lt in H. lia.
  - intros [t' [Ht H]]. injection Ht as <-. apply Z.gtb_lt. lia.
  - discriminate.
  - intros [t' [Ht _]]. discriminate.
Qed.

Lemma skipn_app_exact {A} (l l' : list A) : skipn (List.length l) (l ++ l') = l'.
Proof.
  induction l as [| a l IH]; simpl; [reflexivity | exact IH].
Qed.

Lemma flush_skips (now : datetime) (w : World) :
  flush_fires (transcriber w) now = false ->
  __flush_last_phrase__ now w = (Return tt, w).
Proof.
  unfold flush_fires, __flush_last_phrase__. py_unfold.
  destruct (phrase_timed_out (transcriber w) now); simpl; [| reflexivity].
  intros ->. reflexivity.
Qed.

Lemma flush_emits_first (now : datetime) (w : World) :
  flush_fires (transcriber w) now = true ->
  exists tail,
    trace (snd (__flush_last_phrase__ now w)) =
    trace w ++ FinalizedPhrase (recent_transcription (transcriber w))
                 (current_client (transcriber w)) :: tail.
Proof.
  unfold flush_fires, __flush_last_phrase__, final_callback,
    handle_transcription, synthesise.
  py_unfold.
  destruct (phrase_timed_out (transcriber w) now); simpl; [| discriminate].
  intros ->. world_unfold. simpl.
  destruct (speaker_embeddings (text_to_speech w)) as [[emb |] |]; simpl;
    exists []; reflexivity.
Qed.

Lemma flush_fires_loaded (now : datetime) (w : World) :
  flush_fires (transcriber w) now = true ->
  profile_loaded w = true ->
  __flush_last_phrase__ now w = (Return tt, flushed_world now w).
Proof.
  intros Hf Hl. unfold flush_fires in Hf.
  unfold __flush_last_phrase__. unfold bind at 1. unfold get at 1.
  cbv zeta.
  destruct (phrase_timed_out (transcriber w) now); simpl in Hf;
    [| discriminate].
  rewrite Hf. unfold bind at 1. unfold console_log at 1. unfold modify at 1.
  unfold bind at 1. rewrite final_callback_loaded by exact Hl.
  reflexivity.
Qed.

(** Ticks without data and with nothing pending to say only read the
    clock. *)
Lemma idle_ticks (n : nat) (rate width : Z) (w : World) :
  data_queue w = [] ->
  recent_transcription (transcriber w) = "" ->
  exists k, __worker__ n rate width w = (Return tt, set_clock_reads k w).
Proof.
  revert w. induction n as [| n IH]; intros w Hq Hr.
  - exists (clock_reads w). destruct w; reflexivity.
  - simpl. unfold bind at 1. unfold get at 1.
    destruct (_kill_thread (transcriber w)).
    + exists (clock_reads w). destruct w; reflexivity.
    + unfold bind at 1. unfold worker_tick.
      unfold bind at 1. unfold utcnow at 1.
      unfold bind at 1. rewrite flush_skips.
      * unfold bind at 1. unfold get at 1. fields. rewrite Hq.
        cbn [truthy_list]. unfold ret at 1.
        destruct (IH (set_clock_reads (S (clock_reads w)) w) Hq Hr)
          as [k Hk].
        rewrite Hk. exists k. reflexivity.
      * unfold flush_fires. fields. rewrite Hr. simpl.
        apply andb_false_r.
Qed.

(** C3.  The idle flush fires only when the phrase has timed out
    ([now - phraseTime > phraseTimeout]), [recentText] is not empty and
    [currentOwner] is set: otherwise the call changes nothing.  When it
    fires (the callback returning, which a loaded voice profile ensures)
    it emits [FinalizedPhrase recentText currentOwner] and nothing else,
    clears [recentText], sets [phraseTime] to [now] and clears the
    buffer; and then, as long as no data arrives, any number of further
    ticks emit nothing. *)
Theorem idle_flush_at_most_once (now : datetime) (w : World) :
  profile_loaded w = true ->
  let sr := transcriber w in
  let r := __flush_last_phrase__ now w in
  if flush_fires sr now then
    fst r = Return tt /\
    events_since (List.length (trace w)) (snd r) =
      [FinalizedPhrase (recent_transcription sr) (current_client sr)] /\
    recent_transcription (transcriber (snd r)) = "" /\
    phrase_time (transcriber (snd r)) = Some now /\
    last_sample (transcriber (snd r)) = [] /\
    (data_queue w = [] ->
     forall (n : nat) (rate width : Z),
       let r' := __worker__ n rate width (snd r) in
       fst r' = Return tt /\ trace (snd r') = trace (snd r))
  else r = (Return tt, w).
Proof.
  intros Hl sr r. subst sr r.
  destruct (flush_fires (transcriber w) now) eqn:Hf.
  - rewrite (flush_fires_loaded now w Hf Hl). simpl fst. simpl snd.
    split; [reflexivity |]. split; [| do 3 (split; [reflexivity |])].
    + unfold events_since, flushed_world, finalized_world. simpl.
      apply skipn_app_exact.
    + intros Hq n rate width.
      destruct (idle_ticks n rate width (flushed_world now w)) as [k Hk];
        [exact Hq | reflexivity |].
      cbv zeta. rewrite Hk. split; reflexivity.
  - apply flush_skips. exact Hf.
Qed.

End Segmentation.

Lemma idle_flush_at_most_once_witness :
  profile_loaded talking = true /\
  (let r := __flush_last_phrase__ 2000000%Z talking in
   fst r = Return tt /\
   events_since 0 (snd r) = [FinalizedPhrase "hello" (Some 5)] /\
   recent_transcription (transcriber (snd r)) = "" /\
   phrase_time (transcriber (snd r)) = Some 2000000%Z /\
   last_sample (transcriber (snd r)) = [] /\
   (data_queue talking = [] ->
    forall (n : nat) (rate width : Z),
      let r' := @__worker__ hello_env n rate width (snd r) in
      fst r' = Return tt /\ trace (snd r') = trace (snd r))).
Proof.
  split.
  - reflexivity.
  - exact (@idle_flush_at_most_once hello_env 2000000%Z talking eq_refl).
Defined.

Section Transcription.

Context {env : Environment}.

Lemma transcribe_raises (rate width : Z) (phrase_complete : bool) (e : exn)
  (w : World) :
  transcribe_text (last_sample (transcriber w)) rate width = inl e ->
  __transcribe_audio__ rate width phrase_complete w =
  (Return tt,
   set_console
     (console w ++ [("Error during transcription: " ++ str_exn e)%string]) w).
Proof.
  intros He. unfold __transcribe_audio__. py_unfold. rewrite He. reflexivity.
Qed.

(** C4.  When the transcription engine raises on the buffer of a tick,
    [__transcribe_audio__] catches the error and returns normally; the
    only effect is the line it writes to the console: no event is
    emitted, and the buffer, [phraseTime] and [recentText] (the whole
    transcriber state) are as before.  The worker loop goes on: what
    follows the step in the loop runs from that world. *)
Theorem transcription_error_is_contained (rate width : Z)
  (phrase_complete : bool) (e : exn) (w : World) :
  transcribe_text (last_sample (transcriber w)) rate width = inl e ->
  let r := __transcribe_audio__ rate width phrase_complete w in
  fst r = Return tt /\
  console (snd r) =
    console w ++ [("Error during transcription: " ++ str_exn e)%string] /\
  trace (snd r) = trace w /\
  transcriber (snd r) = transcriber w /\
  snd r = set_console (console (snd r)) w /\
  forall n : nat,
    (__transcribe_audio__ rate width phrase_complete ;;
     __worker__ n rate width) w =
    __worker__ n rate width (snd r).
Proof.
  intros He r. subst r.
  unfold bind. rewrite (transcribe_raises rate width phrase_complete e w He).
  simpl. repeat split.
Qed.

End Transcription.

Lemma transcription_error_is_contained_witness :
  @transcribe_text failing_env (last_sample (transcriber talking)) 16000 2 =
    inl (RuntimeError "CUDA out of memory") /\
  (let r := @__transcribe_audio__ failing_env 16000 2 true talking in
   fst r = Return tt /\
   console (snd r) = ["Error during transcription: CUDA out of memory"] /\
   trace (snd r) = [] /\
   transcriber (snd r) = transcriber talking /\
   snd r = set_console (console (snd r)) talking /\
   forall n : nat,
     (@__transcribe_audio__ failing_env 16000 2 true ;;
      @__worker__ failing_env n 16000 2) talking =
     @__worker__ failing_env n 16000 2 (snd r)).
Proof.
  split.
  - reflexivity.
  - exact (@transcription_error_is_contained failing_env 16000 2 true
             (RuntimeError "CUDA out of memory") talking eq_refl).
Defined.

(** ** The drain loop and the transcription step *)

Section Drain.

Context {env : Environment}.

Lemma obj_eqb_refl (c : socket) : obj_eqb (Some c) (Some c) = true.
Proof. simpl. apply Nat.eqb_refl. Qed.

Lemma concatenate_item_same (client : socket) (data : bytes) (w : World) :
  current_client (transcriber w) = Some client ->
  concatenate_item client data w =
  (Return tt, set_transcriber (appended client data (transcriber w)) w).
Proof.
  intros Hc. unfold concatenate_item. unfold bind at 1. unfold get at 1.
  cbv zeta. rewrite Hc, obj_eqb_refl. reflexivity.
Qed.

Lemma concatenate_item_switch (client : socket) (data : bytes) (w : World) :
  obj_eqb (Some client) (current_client (transcriber w)) = false ->
  profile_loaded w = true ->
  concatenate_item client data w = (Return tt, switched_world client data w).
Proof.
  intros Hc Hl. unfold concatenate_item. unfold bind at 1. unfold get at 1.
  cbv zeta. rewrite Hc. cbn [negb].
  unfold bind at 1. unfold bind at 1. unfold bind at 1.
  unfold console_log at 1. unfold modify at 1.
  unfold bind at 1. rewrite final_callback_loaded by exact Hl.
  reflexivity.
Qed.

Lemma world_eta_drained (c : socket) (w : World) :
  data_queue w = [] ->
  current_client (transcriber w) = Some c ->
  w = drained c [] w.
Proof.
  destruct w as [sr tts q srv rl a con k tr].
  destruct sr as [pt ls to rt cc kt]. simpl. intros -> ->.
  unfold drained, appended. world_unfold. simpl.
  now rewrite app_nil_r.
Qed.

Lemma concatenate_loop_same (c : socket) (items : list (socket * bytes))
  (w : World) :
  data_queue w = items ->
  current_client (transcriber w) = Some c ->
  all_from c items = true ->
  concatenate_loop items w = (Return tt, drained c (chunks items) w).
Proof.
  revert w. induction items as [| [client data] rest IH]; intros w Hq Hc Hall.
  - simpl. unfold ret. f_equal. apply world_eta_drained; assumption.
  - simpl in Hall. apply andb_prop in Hall. destruct Hall as [Hcl Hrest].
    apply Nat.eqb_eq in Hcl. subst client.
    cbn [concatenate_loop]. unfold bind at 1. unfold modify at 1.
    unfold bind at 1. rewrite concatenate_item_same by exact Hc.
    rewrite IH; [| reflexivity | reflexivity | exact Hrest].
    f_equal. unfold drained, appended, chunks. world_unfold. simpl.
    now rewrite app_assoc.
Qed.

Lemma transcribe_returns (rate width : Z) (phrase_complete : bool)
  (text : string) (dt : Z) (w : World) :
  transcribe_text (last_sample (transcriber w)) rate width = inr (text, dt) ->
  profile_loaded w = true ->
  __transcribe_audio__ rate width phrase_complete w =
  (Return tt, transcribed_world phrase_complete text dt w).
Proof.
  intros He Hl. unfold __transcribe_audio__, transcribed_world.
  unfold try_except. unfold bind at 1. unfold get at 1.
  unfold bind at 1. rewrite He. unfold lift, ret at 1. cbv zeta. cbn [fst snd].
  destruct (truthy_str text); [| reflexivity].
  unfold bind at 1. unfold generation_callback, handle_generation.
  unfold bind at 1. unfold emit, modify at 1. unfold ret at 1.
  unfold bind at 1. unfold get at 1. unfold bind at 1. fields.
  destruct (phrase_complete && truthy_str (recent_transcription (transcriber w))
            && truthy_obj (current_client (transcriber w))).
  - unfold bind at 1. unfold console_log at 1. unfold modify at 1.
    rewrite final_callback_loaded by exact Hl. reflexivity.
  - reflexivity.
Qed.

End Drain.

(** ** Phrase boundaries *)

Section Boundaries.

Context {env : Environment}.

Lemma events_since_app (w w' : World) (evs : list Event) :
  trace w' = trace w ++ evs ->
  events_since (List.length (trace w)) w' = evs.
Proof.
  intros H. unfold events_since. rewrite H. apply skipn_app_exact.
Qed.

(** A switch of client ends the phrase of the previous owner before the
    bytes of the new client enter the buffer: the previous text is handed
    to [final_callback] first, then [recentText] is cleared, [phraseTime]
    is set to a fresh reading of the clock, and the buffer holds the new
    chunk only. *)
Lemma client_switch_finalizes_first (client : socket) (data : bytes) (w : World) :
  obj_eqb (Some client) (current_client (transcriber w)) = false ->
  profile_loaded w = true ->
  let sr := transcriber w in
  let r := concatenate_item client data w in
  fst r = Return tt /\
  trace (snd r) =
    trace w ++ [FinalizedPhrase (recent_transcription sr) (current_client sr)] /\
  recent_transcription (transcriber (snd r)) = "" /\
  phrase_time (transcriber (snd r)) = Some (utcnow_reading (clock_reads w)) /\
  last_sample (transcriber (snd r)) = data /\
  current_client (transcriber (snd r)) = Some client.
Proof.
  intros Hc Hl sr r. subst sr r.
  rewrite (concatenate_item_switch client data w Hc Hl).
  repeat split.
Qed.

Lemma update_phrase_time_spec (now : datetime) (w : World) :
  __update_phrase_time__ now w =
  if phrase_timed_out (transcriber w) now then
    (Return true,
     set_transcriber
       (with_last_sample [] (with_phrase_time (Some now) (transcriber w))) w)
  else (Return false, w).
Proof.
  unfold __update_phrase_time__. py_unfold.
  destruct (phrase_timed_out (transcriber w) now); reflexivity.
Qed.

Lemma not_timed_out_at_boundary (sr : SpeechRecognitionModel) (now : datetime) :
  (0 <= phrase_timeout sr)%Z ->
  phrase_time sr = Some now ->
  phrase_timed_out sr now = false.
Proof.
  intros H0 Hpt. unfold phrase_timed_out, timedelta_seconds. rewrite Hpt.
  rewrite Z.gtb_ltb. apply Z.ltb_ge. lia.
Qed.

(** The transcription step emits no [FinalizedPhrase] when the phrase is
    not complete or when nothing is pending, whatever the engine does. *)
Lemma transcribe_without_finalizing (rate width : Z) (phrase_complete : bool)
  (w : World) :
  profile_loaded w = true ->
  phrase_complete && truthy_str (recent_transcription (transcriber w)) = false ->
  let r := __transcribe_audio__ rate width phrase_complete w in
  fst r = Return tt /\
  phrase_time (transcriber (snd r)) = phrase_time (transcriber w) /\
  last_sample (transcriber (snd r)) = last_sample (transcriber w) /\
  exists evs, trace (snd r) = trace w ++ evs /\
    finalized evs = [] /\
    forall text dt,
      transcribe_text (last_sample (transcriber w)) rate width = inr (text, dt) ->
      truthy_str text = true ->
      evs = [TranscriptionUpdate phrase_complete text dt].
Proof.
  intros Hl Hg r. subst r.
  destruct (transcribe_text (last_sample (transcriber w)) rate width)
    as [e | [text dt]] eqn:He.
  - rewrite (transcribe_raises rate width phrase_complete e w He).
    repeat split. exists []. split; [now rewrite app_nil_r |].
    split; [reflexivity | discriminate].
  - rewrite (transcribe_returns rate width phrase_complete text dt w He Hl).
    unfold transcribed_world. destruct (truthy_str text) eqn:Ht.
    + fields. rewrite Hg. cbn [andb].
      repeat split.
      exists [TranscriptionUpdate phrase_complete text dt].
      split; [reflexivity |]. split; [reflexivity |].
      intros text' dt' Heq _. now injection Heq as <- <-.
    + repeat split. exists []. split; [now rewrite app_nil_r |].
      split; [reflexivity |].
      intros text' dt' Heq Ht'. injection Heq as <- <-. congruence.
Qed.

End Boundaries.

(** ** A tick at a silence boundary *)

Section Ticks.

Context {env : Environment}.

Lemma finalized_app (l l' : list Event) :
  finalized (l ++ l') = finalized l ++ finalized l'.
Proof. apply filter_app. Qed.

Lemma tick_with_flush (rate width : Z) (c : socket) (w : World) :
  profile_loaded w = true ->
  current_client (transcriber w) = Some c ->
  all_from c (data_queue w) = true ->
  (0 <= phrase_timeout (transcriber w))%Z ->
  let now := utcnow_reading (clock_reads w) in
  phrase_timed_out (transcriber w) now = true ->
  truthy_str (recent_transcription (transcriber w)) = true ->
  let w1 := flushed_world now (set_clock_reads (S (clock_reads w)) w) in
  worker_tick rate width w =
  match data_queue w with
  | [] => (Return tt, w1)
  | _ :: _ =>
      __transcribe_audio__ rate width false
        (drained c (chunks (data_queue w)) w1)
  end.
Proof.
  intros Hl Hc Hall H0 now Hto Hrec w1.
  unfold worker_tick. unfold bind at 1. unfold utcnow at 1.
  fold now. unfold bind at 1.
  rewrite flush_fires_loaded;
    [| unfold flush_fires; fields; rewrite Hto, Hrec, Hc; reflexivity
     | exact Hl ].
  fold w1. unfold bind at 1. unfold get at 1.
  change (data_queue w1) with (data_queue w).
  destruct (data_queue w) as [| it q] eqn:Hq.
  - reflexivity.
  - cbn [truthy_list]. unfold bind at 1.
    rewrite update_phrase_time_spec.
    rewrite not_timed_out_at_boundary; [| exact H0 | reflexivity].
    unfold bind at 1. unfold __concatenate_new_audio__.
    unfold bind at 1. unfold get at 1.
    change (data_queue w1) with (data_queue w). rewrite Hq.
    rewrite (concatenate_loop_same c (it :: q) w1);
      [reflexivity | exact Hq | exact Hc | exact Hall].
Qed.

Lemma tick_without_flush (rate width : Z) (c : socket) (w : World) :
  current_client (transcriber w) = Some c ->
  all_from c (data_queue w) = true ->
  let now := utcnow_reading (clock_reads w) in
  phrase_timed_out (transcriber w) now = true ->
  truthy_str (recent_transcription (transcriber w)) = false ->
  let w0 := set_clock_reads (S (clock_reads w)) w in
  worker_tick rate width w =
  match data_queue w with
  | [] => (Return tt, w0)
  | _ :: _ =>
      __transcribe_audio__ rate width true
        (drained c (chunks (data_queue w))
           (set_transcriber
              (with_last_sample []
                 (with_phrase_time (Some now) (transcriber w))) w0))
  end.
Proof.
  intros Hc Hall now Hto Hrec w0.
  unfold worker_tick. unfold bind at 1. unfold utcnow at 1.
  fold now. fold w0. unfold bind at 1.
  rewrite flush_skips;
    [| unfold flush_fires; subst w0; fields; rewrite Hrec; cbn [andb];
       apply andb_false_r ].
  unfold bind at 1. unfold get at 1.
  change (data_queue w0) with (data_queue w).
  destruct (data_queue w) as [| it q] eqn:Hq.
  - reflexivity.
  - cbn [truthy_list]. unfold bind at 1.
    rewrite update_phrase_time_spec.
    change (transcriber w0) with (transcriber w). rewrite Hto.
    unfold bind at 1. unfold __concatenate_new_audio__.
    unfold bind at 1. unfold get at 1. fields.
    change (data_queue w0) with (data_queue w). rewrite Hq.
    rewrite (concatenate_loop_same c (it :: q));
      [reflexivity | exact Hq | exact Hc | exact Hall].
Qed.

(** C2, as the code has it.  The boundary by silence is computed by
    [__update_phrase_time__], before the first pop of the tick, as
    [phraseTime] set and [now - phraseTime > phraseTimeout]; when it
    holds, [phraseTime] is set to [now], the buffer is cleared and the
    flag is returned, and the tick passes it to its transcription call.
    For a single client [c], a tick whose reading [now] of the clock is
    past the timeout emits exactly one [FinalizedPhrase], carrying
    [recentText], when [recentText] is not empty, and none when it is
    empty; when it is not empty or when chunks are pending, the tick
    leaves [phraseTime] at [now] and a buffer that holds the chunks
    taken in this tick and nothing older. *)
Theorem silence_boundary_tick (rate width : Z) (c : socket) (w : World) :
  profile_loaded w = true ->
  current_client (transcriber w) = Some c ->
  all_from c (data_queue w) = true ->
  (0 <= phrase_timeout (transcriber w))%Z ->
  let now := utcnow_reading (clock_reads w) in
  phrase_timed_out (transcriber w) now = true ->
  let recent := recent_transcription (transcriber w) in
  let r := worker_tick rate width w in
  (forall (t : datetime) (w0 : World),
     __update_phrase_time__ t w0 =
     if phrase_timed_out (transcriber w0) t then
       (Return true,
        set_transcriber
          (with_last_sample [] (with_phrase_time (Some t) (transcriber w0))) w0)
     else (Return false, w0)) /\
  fst r = Return tt /\
  finalized (events_since (List.length (trace w)) (snd r)) =
    (if truthy_str recent then [FinalizedPhrase recent (Some c)] else []) /\
  (truthy_str recent = true \/ data_queue w <> [] ->
   phrase_time (transcriber (snd r)) = Some now /\
   last_sample (transcriber (snd r)) = chunks (data_queue w)) /\
  (truthy_str recent = false -> data_queue w <> [] ->
   forall text dt,
     transcribe_text (chunks (data_queue w)) rate width = inr (text, dt) ->
     truthy_str text = true ->
     events_since (List.length (trace w)) (snd r) =
       [TranscriptionUpdate true text dt]).
Proof.
  intros Hl Hc Hall H0 now Hto recent r.
  split; [exact update_phrase_time_spec |].
  subst r. destruct (truthy_str recent) eqn:Hrec.
  - (* the idle flush fires *)
    rewrite (tick_with_flush rate width c w Hl Hc Hall H0 Hto Hrec).
    fold now. set (w1 := flushed_world now (set_clock_reads (S (clock_reads w)) w)).
    assert (Htr1 : trace w1 = trace w ++ [FinalizedPhrase recent (Some c)]).
    { subst w1. unfold flushed_world, finalized_world. fields.
      now rewrite Hc. }
    destruct (data_queue w) as [| it q] eqn:Hq.
    + cbn [fst snd].
      split; [reflexivity |]. split; [| split].
      * now rewrite (events_since_app w w1 _ Htr1).
      * intros _. split; reflexivity.
      * intros Hf. discriminate.
    + set (w2 := drained c (chunks (it :: q)) w1).
      destruct (transcribe_without_finalizing rate width false w2)
        as (Hret & Hpt & Hls & evs & Htr & Hfin & _);
        [exact Hl | reflexivity |].
      split; [exact Hret |]. split; [| split].
      * rewrite (events_since_app w _
                   ([FinalizedPhrase recent (Some c)] ++ evs)).
        -- rewrite finalized_app, Hfin. reflexivity.
        -- rewrite Htr. change (trace w2) with (trace w1).
           rewrite Htr1. now rewrite <- app_assoc.
      * intros _. rewrite Hpt, Hls. split; reflexivity.
      * intros Hf. discriminate.
  - (* nothing is pending: the flush is skipped *)
    rewrite (tick_without_flush rate width c w Hc Hall Hto Hrec).
    destruct (data_queue w) as [| it q] eqn:Hq.
    + cbn [fst snd].
      split; [reflexivity |]. split; [| split].
      * rewrite (events_since_app w _ []); [reflexivity |].
        fields. now rewrite app_nil_r.
      * intros [Hf | Hf]; [discriminate | congruence].
      * intros _ Hf. congruence.
    + fold now.
      set (w2 := drained c (chunks (it :: q)) _).
      destruct (transcribe_without_finalizing rate width true w2)
        as (Hret & Hpt & Hls & evs & Htr & Hfin & Hflag);
        [exact Hl | exact Hrec |].
      split; [exact Hret |]. split; [| split].
      * rewrite (events_since_app w _ evs); [exact Hfin | exact Htr].
      * intros _. rewrite Hpt, Hls. split; reflexivity.
      * intros _ _ text dt He Ht.
        rewrite (events_since_app w _ evs); [| exact Htr].
        exact (Hflag text dt He Ht).
Qed.

End Ticks.

Lemma silence_boundary_tick_witness :
  profile_loaded talking_again = true /\
  current_client (transcriber talking_again) = Some 5 /\
  all_from 5 (data_queue talking_again) = true /\
  (0 <= phrase_timeout (transcriber talking_again))%Z /\
  phrase_timed_out (transcriber talking_again)
    (@utcnow_reading hello_env (clock_reads talking_again)) = true /\
  (let r := @worker_tick hello_env 16000 2 talking_again in
   fst r = Return tt /\
   finalized (events_since 0 (snd r)) = [FinalizedPhrase "hello" (Some 5)] /\
   phrase_time (transcriber (snd r)) = Some 1800000%Z /\
   last_sample (transcriber (snd r)) = [x02; x03]).
Proof.
  assert (H0 : (0 <= phrase_timeout (transcriber talking_again))%Z)
    by (simpl; lia).
  pose proof (@silence_boundary_tick hello_env 16000 2 5 talking_again
                eq_refl eq_refl eq_refl H0 eq_refl) as H.
  destruct H as (_ & Hret & Hfin & Hbuf & _).
  destruct (Hbuf (or_introl eq_refl)) as [Hpt Hls].
  do 5 (split; [reflexivity || exact H0 |]).
  split; [exact Hret |]. split; [exact Hfin |]. split; [exact Hpt | exact Hls].
Defined.

(** C2, as the specification states it, fails.  A client sends a chunk,
    stays silent for more than the timeout (the clock reads 1.2 s at the
    start of the phrase and 3.0 s at the tick that takes the next chunk)
    and sends again; the engine finds no text in the first buffer.  No
    [FinalizedPhrase] is emitted for the gap, and the buffer still holds
    the first chunk after the ticks of the silence. *)
Lemma silent_gap_finalizes_nothing :
  phrase_time (transcriber after_first_chunk) = Some 1200000%Z /\
  current_client (transcriber after_first_chunk) = Some 5 /\
  recent_transcription (transcriber after_first_chunk) = "" /\
  @utcnow_reading silent_env (clock_reads after_silence) = 3000000%Z /\
  phrase_timed_out (transcriber after_silence) 3000000%Z = true /\
  last_sample (transcriber after_silence) = [x01; x02] /\
  finalized
    (events_since (List.length (trace after_first_chunk)) after_second_chunk)
  = [].
Proof. vm_compute. repeat split. Qed.

(** C1, on the code.  The server has just started: no owner is set and
    [recentText] is empty.  The first chunk of the first client makes the
    drain loop call [final_callback] all the same: a [FinalizedPhrase]
    with the empty text and no client is emitted, and the task
    [(None, "")] enters the synthesis queue.  Likewise, when the owner
    [5] has no text pending, a chunk of the client [6] makes the loop
    emit a [FinalizedPhrase] with the empty text for [5]. *)
Theorem first_chunk_finalizes_empty_phrase :
  let r := @__concatenate_new_audio__ hello_env first_chunk_pending in
  let r' := @__concatenate_new_audio__ silent_env
              (set_data_queue [(6, [x00])] after_first_chunk) in
  current_client (transcriber first_chunk_pending) = None /\
  recent_transcription (transcriber first_chunk_pending) = "" /\
  fst r = Return tt /\
  trace (snd r) = [FinalizedPhrase "" None] /\
  task_queue (text_to_speech (snd r)) = [(None, "")] /\
  events_since (List.length (trace after_first_chunk)) (snd r') =
    [FinalizedPhrase "" (Some 5)].
Proof. vm_compute. repeat split. Qed.

(** ** The synthesis worker *)

Section SynthesisWorker.

Context {env : Environment}.

Lemma stream_survives (o : SendOutcome) (audio : Tensor)
  (client : option socket) (w : World) :
  send_survives o = true ->
  exists w',
    stream_numpy_array_audio o audio client w = (Return tt, w') /\
    trace w' = trace w ++ dispatch_events o client audio /\
    text_to_speech w' = text_to_speech w.
Proof.
  intros Hs. destruct client as [s |].
  - destruct o as [| n e].
    + eexists. split; [apply stream_numpy_array_audio_sent |].
      split; reflexivity.
    + simpl in Hs. destruct e; try discriminate.
      unfold stream_numpy_array_audio, sendall, read_list_remove. py_run.
      destruct (list_contains s (read_list w)) eqn:C.
      * apply list_contains_In in C.
        destruct (list_remove_present s _ C) as [l' Hl'].
        simpl. rewrite Hl'.
        eexists. split; [reflexivity |]. split; reflexivity.
      * eexists. split; [reflexivity |]. split; reflexivity.
  - eexists. split; [apply stream_numpy_array_audio_None |].
    split; [simpl; now rewrite app_nil_r | reflexivity].
Qed.

Lemma synthesise_blocking_succeeds (text : string) (emb : Embedding)
  (audio : Tensor) (w : World) :
  speaker_embeddings (text_to_speech w) = Some (Some emb) ->
  synthesised emb text = Some audio ->
  synthesise_blocking text w =
  (Return audio,
   set_console (console w ++ [("synthesize : " ++ text)%string]) w).
Proof.
  intros He Hs. unfold synthesised in Hs. unfold synthesise_blocking.
  py_unfold.
  destruct (processor text) as [e | ids]; [discriminate |].
  cbv beta iota. rewrite He.
  destruct (generate_speech ids emb) as [e | a]; [discriminate |].
  injection Hs as ->. reflexivity.
Qed.

Lemma worker_iteration_task (o : SendOutcome) (client : option socket)
  (text : string) (rest : list (option socket * string))
  (emb : Embedding) (audio : Tensor) (w : World) :
  task_queue (text_to_speech w) = (client, text) :: rest ->
  speaker_embeddings (text_to_speech w) = Some (Some emb) ->
  synthesised emb text = Some audio ->
  send_survives o = true ->
  exists w',
    worker_iteration o w = (Return tt, w') /\
    trace w' =
      trace w ++ SynthesisResult client audio :: dispatch_events o client audio /\
    text_to_speech w' = with_task_queue rest (text_to_speech w).
Proof.
  intros Hq He Hs Ho. unfold worker_iteration.
  unfold bind at 1. unfold get at 1. rewrite Hq.
  unfold bind at 1. unfold modify_text_to_speech, modify at 1.
  unfold bind at 1.
  rewrite (synthesise_blocking_succeeds text emb audio); [| exact He | exact Hs].
  unfold callback_function, handle_synthesize. unfold bind at 1.
  unfold emit, modify at 1.
  match goal with
  | |- context [stream_numpy_array_audio o audio client ?w1] =>
      destruct (stream_survives o audio client w1 Ho) as (w' & Hw' & Htr & Htts)
  end.
  exists w'. split; [exact Hw' |]. split.
  - rewrite Htr. fields. now rewrite <- app_assoc.
  - rewrite Htts. reflexivity.
Qed.

Lemma worker_drains_queue (emb : Embedding)
  (q : list (option socket * string)) :
  forall (sends : list SendOutcome) (w : World),
    task_queue (text_to_speech w) = q ->
    speaker_embeddings (text_to_speech w) = Some (Some emb) ->
    tts_kill_thread (text_to_speech w) = false ->
    forallb (engine_succeeds emb) q = true ->
    List.length sends = List.length q ->
    forallb send_survives sends = true ->
    exists w',
      worker sends w = (Return tt, w') /\
      trace w' = trace w ++ expected_events emb q sends /\
      text_to_speech w' = with_task_queue [] (text_to_speech w).
Proof.
  induction q as [| [client text] rest IH]; intros sends w Hq He Hk Hok Hlen Hs.
  - destruct sends; [| discriminate]. exists w. split; [reflexivity |].
    split; [simpl; now rewrite app_nil_r |].
    destruct w as [sr tts dq srv rl a con k tr]. destruct tts as [se tq kt].
    simpl in *. now subst.
  - destruct sends as [| o sends]; [discriminate |].
    simpl in Hok, Hs, Hlen.
    apply andb_prop in Hok. destruct Hok as [Hok1 Hok].
    apply andb_prop in Hs. destruct Hs as [Hs1 Hs].
    unfold engine_succeeds in Hok1. cbn [snd] in Hok1.
    destruct (synthesised emb text) as [audio |] eqn:Hsyn; [| discriminate].
    destruct (worker_iteration_task o client text rest emb audio w
                Hq He Hsyn Hs1) as (w1 & Hw1 & Htr1 & Htts1).
    destruct (IH sends w1) as (w' & Hw' & Htr & Htts).
    + rewrite Htts1. reflexivity.
    + rewrite Htts1. exact He.
    + rewrite Htts1. exact Hk.
    + exact Hok.
    + now injection Hlen.
    + exact Hs.
    + exists w'. split.
      * cbn [worker]. unfold bind at 1. unfold get at 1. rewrite Hk.
        unfold bind at 1. rewrite Hw1. exact Hw'.
      * split.
        -- rewrite Htr, Htr1. cbn [expected_events]. rewrite Hsyn.
           rewrite <- app_assoc. reflexivity.
        -- rewrite Htts, Htts1. reflexivity.
Qed.

Lemma expected_events_last (emb : Embedding) (client : option socket)
  (text : string) (audio : Tensor) (o : SendOutcome)
  (q : list (option socket * string)) :
  forall sends : list SendOutcome,
    synthesised emb text = Some audio ->
    forallb (engine_succeeds emb) q = true ->
    List.length sends = List.length q ->
    expected_events emb (q ++ [(client, text)]) (sends ++ [o]) =
    expected_events emb q sends
      ++ SynthesisResult client audio :: dispatch_events o client audio.
Proof.
  induction q as [| [c t] rest IH]; intros sends Hsyn Hok Hlen.
  - destruct sends; [| discriminate]. simpl. rewrite Hsyn.
    now rewrite app_nil_r.
  - destruct sends as [| o' sends]; [discriminate |].
    simpl in Hok. apply andb_prop in Hok. destruct Hok as [Hok1 Hok].
    unfold engine_succeeds in Hok1. cbn [snd] in Hok1.
    simpl. destruct (synthesised emb t) as [a |]; [| discriminate].
    rewrite (IH sends Hsyn Hok); [| now injection Hlen].
    cbn [app]. now rewrite app_assoc.
Qed.


End SynthesisWorker.


(** ** Synthesis before the voice profile is loaded *)

Section VoiceProfile.

Context {env : Environment}.

(** C6, as the code has it.  When a task is submitted before the voice
    profile is loaded, [synthesise] raises and leaves the world as it
    was: nothing is enqueued, so the task is dropped, and nothing is
    logged; the exception goes to the caller.  The synthesis worker is
    not concerned: once the profile is loaded, a task that is submitted
    is enqueued, and the worker takes the queue in order and produces
    the result of that task. *)
Theorem synthesise_before_profile_loaded (text : string)
  (client : option socket) (w : World) :
  profile_loaded w = false ->
  (exists e, synthesise text client w = (Raise e, w)) /\
  forall (text' : string) (client' : option socket) (audio : Tensor)
         (sends : list SendOutcome) (o : SendOutcome),
    let q := task_queue (text_to_speech w) in
    tts_kill_thread (text_to_speech w) = false ->
    synthesised xvector_dataset text' = Some audio ->
    forallb (engine_succeeds xvector_dataset) q = true ->
    List.length sends = List.length q ->
    forallb send_survives (sends ++ [o]) = true ->
    let w1 := snd (synthesise text client w) in
    let r := (load_speaker_embeddings ;;
              synthesise text' client' ;;
              worker (sends ++ [o])) w1 in
    fst r = Return tt /\
    task_queue (text_to_speech (snd r)) = [] /\
    events_since (List.length (trace w)) (snd r) =
      expected_events xvector_dataset q sends
        ++ SynthesisResult client' audio :: dispatch_events o client' audio.
Proof.
  intros Hl. destruct (synthesise_not_loaded text client w Hl) as [e He].
  split; [now exists e |].
  intros text' client' audio sends o q Hk Hsyn Hok Hlen Hs w1 r.
  subst w1 r. rewrite He. cbn [snd].
  set (w2 := set_text_to_speech
               (with_task_queue (q ++ [(client', text')])
                  (with_speaker_embeddings (Some (Some xvector_dataset))
                     (text_to_speech w)))
               (set_text_to_speech
                  (with_speaker_embeddings (Some (Some xvector_dataset))
                     (text_to_speech w)) w)).
  assert (Hrun : (load_speaker_embeddings ;;
                  synthesise text' client' ;;
                  worker (sends ++ [o])) w = worker (sends ++ [o]) w2).
  { unfold bind at 1. unfold load_speaker_embeddings, modify_text_to_speech.
    unfold modify at 1. unfold bind at 1.
    rewrite synthesise_loaded; reflexivity. }
  rewrite Hrun.
  destruct (worker_drains_queue xvector_dataset (q ++ [(client', text')])
              (sends ++ [o]) w2) as (w' & Hw' & Htr & Htts);
    try reflexivity; try assumption.
  - rewrite forallb_app, Hok. simpl. unfold engine_succeeds. cbn [snd].
    now rewrite Hsyn.
  - rewrite !length_app. simpl. now rewrite Hlen.
  - rewrite Hw'. cbn [fst snd].
    split; [reflexivity |]. split; [now rewrite Htts |].
    apply events_since_app. rewrite Htr. fields.
    now rewrite (expected_events_last xvector_dataset client' text' audio o
                   q sends).
Qed.

End VoiceProfile.

Lemma synthesise_before_profile_loaded_witness :
  profile_loaded before_loading = false /\
  (exists e, synthesise "hello" (Some 5) before_loading =
             (Raise e, before_loading)) /\
  (let w1 := snd (synthesise "hello" (Some 5) before_loading) in
   let r := (@load_speaker_embeddings hello_env ;;
             synthesise "hello" (Some 5) ;;
             @worker hello_env [SendAll]) w1 in
   fst r = Return tt /\
   task_queue (text_to_speech (snd r)) = [] /\
   events_since 0 (snd r) =
     [SynthesisResult (Some 5) {| tobytes := [x2a] |}; Sent 5 [x2a]]).
Proof.
  split; [reflexivity |].
  pose proof (@synthesise_before_profile_loaded hello_env "hello" (Some 5)
                before_loading eq_refl) as [Hraise Hnext].
  split; [exact Hraise |].
  exact (Hnext "hello" (Some 5) {| tobytes := [x2a] |} [] SendAll
           eq_refl eq_refl eq_refl eq_refl eq_refl).
Defined.

(** C6, as the specification states it, fails.  Whether the attribute
    is missing or holds [None], [synthesise] raises without writing to
    the console, and the one line that [handle_transcription] has
    written says that the task was added.  Raised from the idle flush,
    the exception is caught nowhere: it ends the loop of the
    segmentation worker. *)
Lemma unloaded_profile_error_escapes :
  synthesise "hello" (Some 5) before_loading =
    (Raise (AttributeError
       "'TextToSpeechModel' object has no attribute 'speaker_embeddings'"),
     before_loading) /\
  synthesise "hello" (Some 5) profile_set_to_None =
    (Raise (PlainException
       "TextToSpeech: Load speaker embeddings before synthesizing"),
     profile_set_to_None) /\
  console (snd (handle_transcription "hello" (Some 5) profile_set_to_None)) =
    ["Added hello to synthesize task queue"] /\
  (let r := @__worker__ hello_env 2 16000 2 profile_set_to_None in
   fst r = Raise (PlainException
             "TextToSpeech: Load speaker embeddings before synthesizing") /\
   console (snd r) = ["Flush hello"; "Added hello to synthesize task queue"] /\
   trace (snd r) = [FinalizedPhrase "hello" (Some 5)] /\
   task_queue (text_to_speech (snd r)) = []).
Proof. vm_compute. repeat split. Qed.

(** ** The synthesis task queue has no capacity *)

Section Capacity.

Context {env : Environment}.

Lemma handle_readable_accept (s c : socket) (addr : string) (net : SelectEnv)
  (w : World) :
  serversocket w = s ->
  accept_outcome net = inr (c, addr) ->
  handle_readable s net w =
  (Return tt,
   set_console (console w ++ [("Connection from " ++ addr)%string])
     (set_read_list (read_list w ++ [c]) (set_address (Some addr) w))).
Proof.
  intros Hs Ha. unfold handle_readable, log_address. py_unfold.
  rewrite Hs, Nat.eqb_refl, Ha. reflexivity.
Qed.

Lemma switching_alternating (n : nat) :
  forall (a b : socket) (owner : option socket),
    a <> b ->
    obj_eqb (Some a) owner = false ->
    switching owner (alternating a b n) = true.
Proof.
  induction n as [| n IH]; intros a b owner Hab Ho; simpl.
  - reflexivity.
  - destruct owner as [x |].
    + simpl in Ho. rewrite Ho. simpl. apply IH.
      * congruence.
      * simpl. apply Nat.eqb_neq. congruence.
    + simpl. apply IH.
      * congruence.
      * simpl. apply Nat.eqb_neq. congruence.
Qed.

Lemma alternating_length (n : nat) :
  forall a b : socket, List.length (alternating a b n) = n.
Proof.
  induction n as [| n IH]; intros a b; simpl; [reflexivity | now rewrite IH].
Qed.

Lemma alternating_clients (n : nat) :
  forall (a b : socket) (it : socket * bytes),
    In it (alternating a b n) ->
    (fst it = a \/ fst it = b) /\ snd it = [x00].
Proof.
  induction n as [| n IH]; intros a b it Hin; simpl in Hin.
  - contradiction.
  - destruct Hin as [<- | Hin].
    + simpl. auto.
    + destruct (IH b a it Hin) as [[H | H] Hd]; auto.
Qed.

(** The multiplexer can push any chunks of connected clients. *)
Lemma reachable_push (srv : socket) (items : list (socket * bytes)) :
  forall w : World,
    reachable srv w ->
    serversocket w = srv ->
    (forall it, In it items ->
       In (fst it) (read_list w) /\ fst it <> srv /\ snd it = [x00]) ->
    reachable srv (set_data_queue (data_queue w ++ items) w).
Proof.
  induction items as [| [c d] rest IH]; intros w Hr Hs Hit.
  - rewrite app_nil_r. destruct w; exact Hr.
  - destruct (Hit (c, d) (or_introl eq_refl)) as (Hin & Hne & Hd).
    cbn [fst snd] in Hin, Hne, Hd. subst d.
    set (w1 := set_data_queue (data_queue w ++ [(c, [x00])]) w).
    assert (Hr1 : reachable srv w1).
    { apply (reachable_step srv w w1 Hr).
      apply (step_readable c one_byte_pending w w1 Hin).
      apply (handle_readable_data c one_byte_pending w [x00]).
      - apply Nat.eqb_neq. now rewrite Hs.
      - reflexivity.
      - reflexivity. }
    match goal with
    | |- reachable _ ?x =>
        assert (Heq : x = set_data_queue (data_queue w1 ++ rest) w1)
    end.
    { subst w1. unfold set_data_queue. fields.
      now rewrite <- app_assoc. }
    rewrite Heq. apply IH; [exact Hr1 | exact Hs |].
    intros it Hi. apply Hit. now right.
Qed.

(** A drain loop over items that switch client at every step adds one
    task per item. *)
Lemma concatenate_loop_switching (items : list (socket * bytes)) :
  forall w : World,
    profile_loaded w = true ->
    recent_transcription (transcriber w) = "" ->
    switching (current_client (transcriber w)) items = true ->
    exists w',
      concatenate_loop items w = (Return tt, w') /\
      List.length (task_queue (text_to_speech w')) =
        List.length (task_queue (text_to_speech w)) + List.length items /\
      profile_loaded w' = true /\
      recent_transcription (transcriber w') = "".
Proof.
  induction items as [| [c d] rest IH]; intros w Hl Hrec Hsw.
  - exists w. split; [reflexivity |]. split; [simpl; lia |]. now split.
  - simpl in Hsw. apply andb_prop in Hsw. destruct Hsw as [Hc Hsw].
    apply negb_true_iff in Hc.
    cbn [concatenate_loop]. unfold bind at 1. unfold modify at 1.
    unfold bind at 1.
    rewrite (concatenate_item_switch c d (set_data_queue rest w)); [| exact Hc | exact Hl].
    destruct (IH (switched_world c d (set_data_queue rest w)))
      as (w' & Hw' & Hlen & Hl' & Hrec').
    + unfold profile_loaded, switched_world, finalized_world. fields.
      exact Hl.
    + reflexivity.
    + exact Hsw.
    + exists w'. split; [exact Hw' |]. split; [| now split].
      rewrite Hlen. unfold switched_world, finalized_world. fields.
      rewrite length_app. simpl. lia.
Qed.

Lemma transcribe_keeps_queue (rate width : Z) (phrase_complete : bool)
  (w : World) :
  profile_loaded w = true ->
  recent_transcription (transcriber w) = "" ->
  exists w',
    __transcribe_audio__ rate width phrase_complete w = (Return tt, w') /\
    text_to_speech w' = text_to_speech w.
Proof.
  intros Hl Hrec.
  destruct (transcribe_text (last_sample (transcriber w)) rate width)
    as [e | [text dt]] eqn:He.
  - rewrite (transcribe_raises rate width phrase_complete e w He).
    eexists. split; reflexivity.
  - rewrite (transcribe_returns rate width phrase_complete text dt w He Hl).
    eexists. split; [reflexivity |].
    unfold transcribed_world. destruct (truthy_str text); [| reflexivity].
    fields. rewrite Hrec. cbn [truthy_str]. rewrite andb_false_r.
    reflexivity.
Qed.

(** A tick that finds such items in the queue adds one task per item. *)
Lemma tick_on_switching_items (rate width : Z) (w : World) :
  profile_loaded w = true ->
  recent_transcription (transcriber w) = "" ->
  data_queue w <> [] ->
  switching (current_client (transcriber w)) (data_queue w) = true ->
  exists w',
    worker_tick rate width w = (Return tt, w') /\
    List.length (task_queue (text_to_speech w')) =
      List.length (task_queue (text_to_speech w)) + List.length (data_queue w).
Proof.
  intros Hl Hrec Hq Hsw.
  unfold worker_tick. unfold bind at 1. unfold utcnow at 1.
  set (now := utcnow_reading (clock_reads w)).
  set (w0 := set_clock_reads (S (clock_reads w)) w).
  unfold bind at 1.
  rewrite flush_skips;
    [| unfold flush_fires; subst w0; fields; rewrite Hrec; cbn [truthy_str andb];
       apply andb_false_r ].
  unfold bind at 1. unfold get at 1.
  change (data_queue w0) with (data_queue w).
  destruct (data_queue w) as [| it q] eqn:Hdq; [congruence |].
  cbn [truthy_list]. unfold bind at 1. rewrite update_phrase_time_spec.
  assert (Hloop : forall w1,
            data_queue w1 = it :: q ->
            profile_loaded w1 = true ->
            recent_transcription (transcriber w1) = "" ->
            current_client (transcriber w1) = current_client (transcriber w) ->
            text_to_speech w1 = text_to_speech w ->
            forall pc, exists w',
              (__concatenate_new_audio__ ;;
               __transcribe_audio__ rate width pc) w1 = (Return tt, w') /\
              List.length (task_queue (text_to_speech w')) =
                List.length (task_queue (text_to_speech w))
                  + List.length (it :: q)).
  { intros w1 Hq1 Hl1 Hrec1 Hc1 Htts1 pc.
    unfold bind at 1. unfold __concatenate_new_audio__.
    unfold bind at 1. unfold get at 1. rewrite Hq1.
    destruct (concatenate_loop_switching (it :: q) w1 Hl1 Hrec1)
      as (w2 & Hw2 & Hlen & Hl2 & Hrec2).
    - now rewrite Hc1.
    - rewrite Hw2.
      destruct (transcribe_keeps_queue rate width pc w2 Hl2 Hrec2)
        as (w3 & Hw3 & Htts).
      exists w3. split; [exact Hw3 |].
      now rewrite Htts, Hlen, Htts1. }
  destruct (phrase_timed_out (transcriber w0) now).
  - unfold bind at 1. apply Hloop; try reflexivity; assumption.
  - unfold bind at 1. apply Hloop; try reflexivity; assumption.
Qed.

(** From the start of the server, two clients connect and send [n]
    chunks in turn before the worker's next tick: the tick leaves [n]
    tasks in the synthesis queue. *)
Lemma reachable_long_queue (srv : socket) (n : nat) :
  exists w,
    reachable srv w /\ List.length (task_queue (text_to_speech w)) = n.
Proof.
  destruct n as [| n].
  - exists (boot srv). split; [constructor | reflexivity].
  - set (a := S srv). set (b := S (S srv)).
    set (addr := "('10.0.0.1', 50000)").
    set (w1 := set_console
                 (console (boot srv) ++ [("Connection from " ++ addr)%string])
                 (set_read_list (read_list (boot srv) ++ [a])
                    (set_address (Some addr) (boot srv)))).
    set (w2 := set_console
                 (console w1 ++ [("Connection from " ++ addr)%string])
                 (set_read_list (read_list w1 ++ [b])
                    (set_address (Some addr) w1))).
    assert (Hr1 : reachable srv w1).
    { apply (reachable_step srv (boot srv) w1 (reachable_boot srv)).
      apply (step_readable srv (accepts a) (boot srv) w1).
      - simpl. now left.
      - apply handle_readable_accept; reflexivity. }
    assert (Hr2 : reachable srv w2).
    { apply (reachable_step srv w1 w2 Hr1).
      apply (step_readable srv (accepts b) w1 w2).
      - simpl. now left.
      - apply handle_readable_accept; reflexivity. }
    assert (Hw2 : read_list w2 = [srv; a; b]) by reflexivity.
    set (items := alternating a b (S n)).
    assert (Hr3 : reachable srv (set_data_queue (data_queue w2 ++ items) w2)).
    { apply reachable_push; [exact Hr2 | reflexivity |].
      intros it Hin.
      destruct (alternating_clients (S n) a b it Hin) as [Hc Hd].
      rewrite Hw2. subst a b.
      split; [| split; [| exact Hd]].
      - simpl. destruct Hc as [-> | ->]; auto.
      - destruct Hc as [-> | ->]; lia. }
    set (w3 := set_data_queue (data_queue w2 ++ items) w2) in *.
    destruct (tick_on_switching_items 16000 2 w3) as (w4 & Hw4 & Hlen).
    + reflexivity.
    + reflexivity.
    + discriminate.
    + change (switching None items = true).
      apply switching_alternating; [subst a b; lia | reflexivity].
    + exists w4. split.
      * apply (reachable_step srv w3 w4 Hr3).
        apply step_tick; [reflexivity | exact Hw4].
      * rewrite Hlen.
        change (List.length (data_queue w3)) with (List.length items).
        subst items. rewrite alternating_length. reflexivity.
Qed.

(** C9, as the code has it.  The synthesis task queue is created without
    a capacity: [synthesise] never refuses a task because of the length
    of the queue, each call that returns adds exactly one entry, and for
    every number [cap] the server reaches a state with more than [cap]
    pending entries. *)
Theorem task_queue_has_no_capacity (srv : socket) (cap : nat) :
  (forall (text : string) (client : option socket) (w : World),
     profile_loaded w = true ->
     let r := synthesise text client w in
     fst r = Return tt /\
     task_queue (text_to_speech (snd r)) =
       task_queue (text_to_speech w) ++ [(client, text)]) /\
  exists w,
    reachable srv w /\ cap < List.length (task_queue (text_to_speech w)).
Proof.
  split.
  - intros text client w Hl r. subst r.
    rewrite (synthesise_loaded text client w Hl). split; reflexivity.
  - destruct (reachable_long_queue srv (S cap)) as (w & Hr & Hlen).
    exists w. split; [exact Hr | lia].
Qed.

End Capacity.

Lemma task_queue_has_no_capacity_witness :
  profile_loaded talking = true /\
  (let r := synthesise "hello" (Some 5) talking in
   fst r = Return tt /\
   task_queue (text_to_speech (snd r)) = [(Some 5, "hello")]) /\
  exists w,
    @reachable hello_env 0 w /\
    3 < List.length (task_queue (text_to_speech w)).
Proof.
  pose proof (@task_queue_has_no_capacity hello_env 0 3) as [Happ Hex].
  split; [reflexivity |]. split; [| exact Hex].
  exact (Happ "hello" (Some 5) talking eq_refl).
Defined.

(** C9, as the specification states it, fails: no capacity bounds the
    synthesis task queue of the server. *)
Lemma task_queue_exceeds_every_capacity :
  ~ exists cap : nat, @task_queue_bounded hello_env 0 cap.
Proof.
  intros [cap Hb].
  destruct (@reachable_long_queue hello_env 0 (S cap)) as (w & Hr & Hlen).
  specialize (Hb w Hr). lia.
Qed.

(** ** The voice profile stays loaded *)

Section ProfileInvariant.

Context {env : Environment}.

Lemma preserves_ret {A} (P : World -> Prop) (a : A) : preserves P (ret a).
Proof. intros w H. exact H. Qed.

Lemma preserves_raise {A} (P : World -> Prop) (e : exn) :
  preserves P (@raise A e).
Proof. intros w H. exact H. Qed.

Lemma preserves_get (P : World -> Prop) : preserves P get.
Proof. intros w H. exact H. Qed.

Lemma preserves_modify (P : World -> Prop) (f : World -> World) :
  (forall w, P w -> P (f w)) -> preserves P (modify f).
Proof. intros Hf w H. apply Hf. exact H. Qed.

Lemma preserves_bind {A B} (P : World -> Prop) (m : M A) (k : A -> M B) :
  preserves P m -> (forall a, preserves P (k a)) -> preserves P (bind m k).
Proof.
  intros Hm Hk w H. unfold bind. specialize (Hm w H).
  destruct (m w) as [[a | e] w']; simpl in *.
  - apply Hk. exact Hm.
  - exact Hm.
Qed.

Lemma preserves_try_except {A} (P : World -> Prop) (body : M A)
  (catches : exn -> bool) (handler : exn -> M A) :
  preserves P body -> (forall e, preserves P (handler e)) ->
  preserves P (try_except body catches handler).
Proof.
  intros Hb Hh w H. unfold try_except. specialize (Hb w H).
  destruct (body w) as [[a | e] w']; simpl in *.
  - exact Hb.
  - destruct (catches e); [apply Hh |]; exact Hb.
Qed.

Lemma preserves_lift {A} (P : World -> Prop) (r : exn + A) :
  preserves P (lift r).
Proof. destruct r; intros w H; exact H. Qed.

Ltac keep_bind :=
  match goal with
  | |- preserves _ (bind _ _) => apply preserves_bind; [| intros ?]
  end.

Lemma console_log_keeps (line : string) : preserves loaded_prop (console_log line).
Proof. apply preserves_modify. intros w H. exact H. Qed.

Lemma emit_keeps (e : Event) : preserves loaded_prop (emit e).
Proof. apply preserves_modify. intros w H. exact H. Qed.

Lemma modify_transcriber_keeps (f : SpeechRecognitionModel -> SpeechRecognitionModel) :
  preserves loaded_prop (modify_transcriber f).
Proof. apply preserves_modify. intros w H. exact H. Qed.

Lemma set_task_queue_keeps
  (f : TextToSpeechModel -> list (option socket * string)) :
  preserves loaded_prop
    (modify_text_to_speech (fun t => with_task_queue (f t) t)).
Proof. apply preserves_modify. intros w H. exact H. Qed.

Lemma utcnow_keeps : preserves loaded_prop utcnow.
Proof. intros w H. exact H. Qed.

Lemma read_list_remove_keeps (s : socket) :
  preserves loaded_prop (read_list_remove s).
Proof.
  unfold read_list_remove. apply preserves_bind; [apply preserves_get |].
  intros w. destruct (list_remove s (read_list w)).
  - apply preserves_modify. intros w' H. exact H.
  - apply preserves_raise.
Qed.

Lemma log_address_keeps (msg : string) : preserves loaded_prop (log_address msg).
Proof.
  unfold log_address. apply preserves_bind; [apply preserves_get |].
  intros w. destruct (address w);
    [apply console_log_keeps | apply preserves_raise].
Qed.

Lemma synthesise_keeps (text : string) (client : option socket) :
  preserves loaded_prop (synthesise text client).
Proof.
  unfold synthesise. apply preserves_bind; [apply preserves_get |].
  intros w. destruct (speaker_embeddings (text_to_speech w)) as [[emb |] |];
    try apply preserves_raise.
  apply (set_task_queue_keeps (fun t => task_queue t ++ [(client, text)])).
Qed.

Lemma final_callback_keeps (text : string) (client : option socket) :
  preserves loaded_prop (final_callback text client).
Proof.
  unfold final_callback, handle_transcription.
  apply preserves_bind; [apply emit_keeps | intros _].
  apply preserves_bind; [apply console_log_keeps | intros _].
  apply synthesise_keeps.
Qed.

Lemma flush_keeps (now : datetime) :
  preserves loaded_prop (__flush_last_phrase__ now).
Proof.
  unfold __flush_last_phrase__.
  apply preserves_bind; [apply preserves_get | intros w]. cbv zeta.
  destruct (phrase_timed_out (transcriber w) now); [| apply preserves_ret].
  destruct (truthy_str (recent_transcription (transcriber w))
            && truthy_obj (current_client (transcriber w)));
    [| apply preserves_ret].
  repeat keep_bind;
    first [apply console_log_keeps | apply final_callback_keeps
          | apply modify_transcriber_keeps].
Qed.

Lemma update_phrase_time_keeps (now : datetime) :
  preserves loaded_prop (__update_phrase_time__ now).
Proof.
  unfold __update_phrase_time__.
  apply preserves_bind; [apply preserves_get | intros w].
  destruct (phrase_timed_out (transcriber w) now); [| apply preserves_ret].
  repeat keep_bind;
    first [apply modify_transcriber_keeps | apply preserves_ret].
Qed.

Lemma concatenate_item_keeps (client : socket) (data : bytes) :
  preserves loaded_prop (concatenate_item client data).
Proof.
  unfold concatenate_item.
  apply preserves_bind; [apply preserves_get | intros w]. cbv zeta.
  apply preserves_bind; [| intros _].
  - destruct (negb (obj_eqb (Some client) (current_client (transcriber w))));
      [| apply preserves_ret].
    repeat keep_bind;
      first [apply console_log_keeps | apply final_callback_keeps
            | apply modify_transcriber_keeps | apply utcnow_keeps].
  - apply preserves_bind; [| intros _]; apply modify_transcriber_keeps.
Qed.

Lemma concatenate_loop_keeps (pending : list (socket * bytes)) :
  preserves loaded_prop (concatenate_loop pending).
Proof.
  induction pending as [| [client data] rest IH]; simpl.
  - apply preserves_ret.
  - apply preserves_bind; [| intros _].
    + apply preserves_modify. intros w H. exact H.
    + apply preserves_bind; [apply concatenate_item_keeps | intros _].
      exact IH.
Qed.

Lemma transcribe_keeps (rate width : Z) (phrase_complete : bool) :
  preserves loaded_prop (__transcribe_audio__ rate width phrase_complete).
Proof.
  unfold __transcribe_audio__.
  apply preserves_try_except; [| intros e; apply console_log_keeps].
  apply preserves_bind; [apply preserves_get | intros w].
  apply preserves_bind; [apply preserves_lift | intros r]. cbv zeta.
  destruct (truthy_str (fst r)); [| apply preserves_ret].
  apply preserves_bind; [| intros _].
  - unfold generation_callback, handle_generation.
    apply preserves_bind; [apply emit_keeps | intros _]. apply preserves_ret.
  - apply preserves_bind; [apply preserves_get | intros w'].
    apply preserves_bind; [| intros _; apply modify_transcriber_keeps].
    destruct (phrase_complete
              && truthy_str (recent_transcription (transcriber w'))
              && truthy_obj (current_client (transcriber w')));
      [| apply preserves_ret].
    apply preserves_bind; [apply console_log_keeps | intros _].
    apply final_callback_keeps.
Qed.

Lemma worker_tick_keeps (rate width : Z) :
  preserves loaded_prop (worker_tick rate width).
Proof.
  unfold worker_tick.
  apply preserves_bind; [apply utcnow_keeps | intros now].
  apply preserves_bind; [apply flush_keeps | intros _].
  apply preserves_bind; [apply preserves_get | intros w].
  destruct (truthy_list (data_queue w)); [| apply preserves_ret].
  apply preserves_bind; [apply update_phrase_time_keeps | intros pc].
  apply preserves_bind; [| intros _; apply transcribe_keeps].
  unfold __concatenate_new_audio__.
  apply preserves_bind; [apply preserves_get | intros w'].
  apply concatenate_loop_keeps.
Qed.

Lemma handle_readable_keeps (s : socket) (net : SelectEnv) :
  preserves loaded_prop (handle_readable s net).
Proof.
  unfold handle_readable.
  apply preserves_bind; [apply preserves_get | intros w].
  destruct (Nat.eqb s (serversocket w)).
  - apply preserves_bind; [apply preserves_lift | intros r].
    apply preserves_bind; [apply preserves_modify; intros ? H; exact H | intros _].
    apply preserves_bind; [apply preserves_modify; intros ? H; exact H | intros _].
    apply log_address_keeps.
  - apply preserves_try_except.
    + apply preserves_bind.
      * unfold recv. destruct (recv_outcome net);
          [apply preserves_raise | apply preserves_ret].
      * intros data. destruct (truthy_list data).
        -- apply preserves_modify. intros ? H. exact H.
        -- apply preserves_bind; [apply read_list_remove_keeps | intros _].
           apply log_address_keeps.
    + intros _.
      apply preserves_bind; [apply read_list_remove_keeps | intros _].
      apply log_address_keeps.
Qed.

Lemma stream_keeps (o : SendOutcome) (audio : Tensor) (client : option socket) :
  preserves loaded_prop (stream_numpy_array_audio o audio client).
Proof.
  unfold stream_numpy_array_audio. destruct client as [s |];
    [| apply console_log_keeps].
  apply preserves_try_except.
  - unfold sendall. destruct o; [apply emit_keeps |].
    apply preserves_bind; [apply emit_keeps | intros _]. apply preserves_raise.
  - intros e. apply preserves_bind; [apply console_log_keeps | intros _].
    apply preserves_bind; [apply preserves_get | intros w].
    destruct (list_contains s (read_list w));
      [apply read_list_remove_keeps | apply preserves_ret].
Qed.

Lemma worker_iteration_keeps (o : SendOutcome) :
  preserves loaded_prop (worker_iteration o).
Proof.
  unfold worker_iteration.
  apply preserves_bind; [apply preserves_get | intros w].
  destruct (task_queue (text_to_speech w)) as [| [client text] rest];
    [apply preserves_ret |].
  apply preserves_bind; [apply (set_task_queue_keeps (fun _ => rest)) | intros _].
  apply preserves_bind.
  - unfold synthesise_blocking.
    apply preserves_bind; [apply preserves_lift | intros ids].
    apply preserves_bind; [apply preserves_get | intros w'].
    destruct (speaker_embeddings (text_to_speech w')) as [[emb |] |];
      try apply preserves_raise.
    apply preserves_bind; [apply preserves_lift | intros speech].
    apply preserves_bind; [apply console_log_keeps | intros _].
    apply preserves_ret.
  - intros audio. unfold callback_function, handle_synthesize.
    apply preserves_bind; [apply emit_keeps | intros _]. apply stream_keeps.
Qed.

(** In every state that the server reaches, the voice profile is
    loaded: the callbacks of the segmentation worker return. *)
Lemma reachable_profile_loaded (srv : socket) (w : World) :
  reachable srv w -> profile_loaded w = true.
Proof.
  induction 1 as [| w w' Hr IH Hstep].
  - reflexivity.
  - destruct Hstep as [s net w w' _ Hrun | w w' _ Hrun | o w w' _ Hrun].
    + pose proof (handle_readable_keeps s net w IH) as H.
      now rewrite Hrun in H.
    + pose proof (worker_tick_keeps 16000 2 w IH) as H.
      now rewrite Hrun in H.
    + pose proof (worker_iteration_keeps o w IH) as H.
      now rewrite Hrun in H.
Qed.

End ProfileInvariant.

(** * Further properties of the code *)

(** ** Connections *)

Lemma list_remove_absent (x : socket) (l : list socket) :
  ~ In x l -> list_remove x l = None.
Proof.
  induction l as [| y l IH]; simpl; intros Hn; [reflexivity |].
  destruct (Nat.eqb y x) eqn:E.
  - apply Nat.eqb_eq in E. subst. exfalso. apply Hn. now left.
  - rewrite IH; [reflexivity |]. intros H. apply Hn. now right.
Qed.

Lemma list_remove_appended (x : socket) (l : list socket) :
  ~ In x l -> list_remove x (l ++ [x]) = Some l.
Proof.
  induction l as [| y l IH]; simpl; intros Hn.
  - now rewrite Nat.eqb_refl.
  - destruct (Nat.eqb y x) eqn:E.
    + apply Nat.eqb_eq in E. subst. exfalso. apply Hn. now left.
    + rewrite IH; [reflexivity |]. intros H. apply Hn. now right.
Qed.

(** A client socket on which the read returns no byte or a connection
    reset, in terms of [list.remove]. *)
Lemma handle_readable_gone (s : socket) (net : SelectEnv) (w : World) :
  Nat.eqb s (serversocket w) = false ->
  recv_outcome net = inr [] \/ recv_outcome net = inl ConnectionResetError ->
  handle_readable s net w =
  match list_remove s (read_list w) with
  | Some l =>
      match address w with
      | Some a =>
          (Return tt,
           set_console
             (console w ++
              [((match recv_outcome net with
                 | inr _ => "Disconnection from"
                 | inl _ => "Client crashed from"
                 end) ++ " " ++ a)%string])
             (set_read_list l w))
      | None =>
          (Raise (UnboundLocalError
             "cannot access local variable 'address' where it is not associated with a value"),
           set_read_list l w)
      end
  | None => (Raise (ValueError "list.remove(x): x not in list"), w)
  end.
Proof.
  intros Hs Hc.
  unfold handle_readable, recv, read_list_remove, log_address. py_unfold.
  rewrite Hs.
  destruct Hc as [Hr | Hr]; rewrite Hr; cbv beta iota; cbn [firstn truthy_list is_ConnectionResetError];
    destruct (list_remove s (read_list w)) as [l |]; cbn;
    try reflexivity;
    destruct (address w); reflexivity.
Qed.

(** X1.  A client that connects and then closes its connection (or whose
    connection is reset) leaves the monitored set as it was before it
    connected, and nothing in the ingestion queue. *)
Theorem connect_then_close_restores_set (c : socket) (addr : string)
  (net_a net_c : SelectEnv) (w : World) :
  c <> serversocket w ->
  ~ In c (read_list w) ->
  accept_outcome net_a = inr (c, addr) ->
  recv_outcome net_c = inr [] \/ recv_outcome net_c = inl ConnectionResetError ->
  let r := (handle_readable (serversocket w) net_a ;;
            handle_readable c net_c) w in
  fst r = Return tt /\
  read_list (snd r) = read_list w /\
  data_queue (snd r) = data_queue w.
Proof.
  intros Hc Hn Ha Hr r.
  assert (Hrun : exists w',
            r = (Return tt, w') /\ read_list w' = read_list w /\
            data_queue w' = data_queue w).
  { subst r. unfold bind.
    rewrite (handle_readable_accept (serversocket w) c addr net_a w eq_refl Ha).
    match goal with
    | |- context [handle_readable c net_c ?w1] =>
        rewrite (handle_readable_gone c net_c w1);
          [| apply Nat.eqb_neq; exact Hc | exact Hr]
    end.
    fields. rewrite (list_remove_appended c (read_list w) Hn).
    eexists. split; [reflexivity |]. split; reflexivity. }
  destruct Hrun as (w' & -> & Hrl & Hdq). repeat split; assumption.
Qed.

Lemma connect_then_close_restores_set_witness :
  7 <> serversocket two_clients /\
  ~ In 7 (read_list two_clients) /\
  (let r := (handle_readable (serversocket two_clients) (accepts 7) ;;
             handle_readable 7 closed_pending) two_clients in
   fst r = Return tt /\
   read_list (snd r) = [0; 5; 6] /\
   data_queue (snd r) = []).
Proof.
  assert (H1 : 7 <> serversocket two_clients) by (simpl; discriminate).
  assert (H2 : ~ In 7 (read_list two_clients))
    by (simpl; intuition discriminate).
  split; [exact H1 |]. split; [exact H2 |].
  exact (connect_then_close_restores_set 7 "('10.0.0.1', 50000)" (accepts 7)
           closed_pending two_clients H1 H2 eq_refl (or_introl eq_refl)).
Defined.

(** X2.  When the dispatcher has deregistered a client after a
    connection reset, the multiplexer's own handling of the end of that
    connection finds the socket missing: [read_list.remove] raises
    [ValueError], which nothing catches.  The world is left as it was,
    and the exception ends the loop of [start] whatever follows in the
    round and in the later rounds. *)
Theorem deregistered_client_breaks_loop (n : nat) (audio : Tensor) (s : socket)
  (net : SelectEnv) (w : World) :
  s <> serversocket w ->
  NoDup (read_list w) ->
  recv_outcome net = inr [] \/ recv_outcome net = inl ConnectionResetError ->
  let w1 := snd (stream_numpy_array_audio (SendFails n ConnectionResetError)
                   audio (Some s) w) in
  handle_readable s net w1 =
    (Raise (ValueError "list.remove(x): x not in list"), w1) /\
  forall (rest : list (socket * SelectEnv))
         (rounds : list (list (socket * SelectEnv))),
    serve (((s, net) :: rest) :: rounds) w1 =
      (Raise (ValueError "list.remove(x): x not in list"), w1).
Proof.
  intros Hs Hnd Hr w1.
  destruct (stream_numpy_array_audio_reset n audio s w)
    as (_ & _ & _ & Hgone & _).
  assert (Hsrv : serversocket w1 = serversocket w).
  { subst w1. unfold stream_numpy_array_audio, sendall, read_list_remove.
    py_run. destruct (list_contains s (read_list w)); simpl;
      [destruct (list_remove s (read_list w)) |]; reflexivity. }
  assert (Hrun : handle_readable s net w1 =
                 (Raise (ValueError "list.remove(x): x not in list"), w1)).
  { rewrite (handle_readable_gone s net w1);
      [| apply Nat.eqb_neq; now rewrite Hsrv | exact Hr].
    rewrite (list_remove_absent s (read_list w1)); [reflexivity |].
    exact (Hgone Hnd). }
  split; [exact Hrun |].
  intros rest rounds. cbn [serve select_round]. unfold bind.
  now rewrite Hrun.
Qed.

Lemma deregistered_client_breaks_loop_witness :
  5 <> serversocket two_clients /\
  NoDup (read_list two_clients) /\
  (let w1 := snd (stream_numpy_array_audio (SendFails 1 ConnectionResetError)
                    two_samples (Some 5) two_clients) in
   handle_readable 5 reset_pending w1 =
     (Raise (ValueError "list.remove(x): x not in list"), w1) /\
   forall (rest : list (socket * SelectEnv))
          (rounds : list (list (socket * SelectEnv))),
     serve (((5, reset_pending) :: rest) :: rounds) w1 =
       (Raise (ValueError "list.remove(x): x not in list"), w1)).
Proof.
  assert (H1 : 5 <> serversocket two_clients) by (simpl; discriminate).
  assert (H2 : NoDup (read_list two_clients)).
  { simpl. repeat constructor; simpl; intuition discriminate. }
  split; [exact H1 |]. split; [exact H2 |].
  exact (deregistered_client_breaks_loop 1 two_samples 5 reset_pending
           two_clients H1 H2 (or_intror eq_refl)).
Defined.

(** ** The ingestion queue *)

Lemma queue_extends_refl (w : World) : queue_extends w w.
Proof.
  split; [reflexivity |]. exists []. split; [now rewrite app_nil_r | constructor].
Qed.

Lemma queue_extends_trans (w1 w2 w3 : World) :
  queue_extends w1 w2 -> queue_extends w2 w3 -> queue_extends w1 w3.
Proof.
  intros [Hs1 (a1 & Hq1 & Hf1)] [Hs2 (a2 & Hq2 & Hf2)].
  split; [congruence |]. exists (a1 ++ a2). split.
  - rewrite Hq2, Hq1. now rewrite app_assoc.
  - apply Forall_app. split; [exact Hf1 |]. now rewrite <- Hs1.
Qed.

Lemma queue_extends_same (w w' : World) :
  serversocket w' = serversocket w ->
  data_queue w' = data_queue w ->
  queue_extends w w'.
Proof.
  intros Hs Hq. split; [exact Hs |]. exists [].
  split; [now rewrite app_nil_r | constructor].
Qed.

Lemma handle_readable_extends (s : socket) (net : SelectEnv) (w : World) :
  queue_extends w (snd (handle_readable s net w)).
Proof.
  destruct (Nat.eqb s (serversocket w)) eqn:Hs.
  - apply queue_extends_same;
      unfold handle_readable, log_address; py_unfold; rewrite Hs;
      destruct (accept_outcome net) as [e | [c a]]; reflexivity.
  - destruct (recv_outcome net) as [e | pending] eqn:Hr.
    + destruct (is_ConnectionResetError e) eqn:He.
      * destruct e; try discriminate.
        rewrite (handle_readable_gone s net w Hs (or_intror Hr)).
        apply queue_extends_same;
          destruct (list_remove s (read_list w)); try reflexivity;
          destruct (address w); reflexivity.
      * apply queue_extends_same;
          unfold handle_readable, recv; py_unfold; rewrite Hs, Hr;
          cbv beta iota; rewrite He; reflexivity.
    + destruct (firstn 4096 pending) as [| b data] eqn:Hd.
      * assert (Hp : pending = []).
        { destruct pending; [reflexivity | discriminate]. }
        subst pending.
        rewrite (handle_readable_gone s net w Hs (or_introl Hr)).
        apply queue_extends_same;
          destruct (list_remove s (read_list w)); try reflexivity;
          destruct (address w); reflexivity.
      * rewrite (handle_readable_data s net w pending Hs Hr);
          [| now rewrite Hd].
        split; [reflexivity |]. exists [(s, firstn 4096 pending)].
        split; [reflexivity |]. constructor; [| constructor].
        split; [now apply Nat.eqb_neq |]. cbn [snd]. split.
        -- rewrite Hd. simpl. lia.
        -- apply firstn_at_most.
Qed.

Lemma select_round_extends (readable : list (socket * SelectEnv)) :
  forall w, queue_extends w (snd (select_round readable w)).
Proof.
  induction readable as [| [s net] rest IH]; intros w.
  - apply queue_extends_refl.
  - cbn [select_round]. unfold bind.
    pose proof (handle_readable_extends s net w) as H.
    destruct (handle_readable s net w) as [[[] | e] w1]; simpl in *.
    + exact (queue_extends_trans w w1 _ H (IH w1)).
    + exact H.
Qed.

(** X3.  Whatever the network does and however the loop of [start] ends,
    the multiplexer only adds to the end of the ingestion queue: the
    chunks that were queued stay, in their order, and every chunk added
    comes from a client socket and holds between 1 and 4096 bytes. *)
Theorem multiplexer_only_appends_chunks
  (rounds : list (list (socket * SelectEnv))) (w : World) :
  let w' := snd (serve rounds w) in
  serversocket w' = serversocket w /\
  exists added,
    data_queue w' = data_queue w ++ added /\
    Forall (fun it => fst it <> serversocket w /\
                      1 <= List.length (snd it) <= 4096) added.
Proof.
  cbv zeta. change (queue_extends w (snd (serve rounds w))).
  revert w. induction rounds as [| readable rounds IH]; intros w.
  - apply queue_extends_refl.
  - cbn [serve]. unfold bind.
    pose proof (select_round_extends readable w) as H.
    destruct (select_round readable w) as [[[] | e] w1]; simpl in *.
    + exact (queue_extends_trans w w1 _ H (IH w1)).
    + exact H.
Qed.

(** ** Starting and stopping the server *)

Section MultiplexerFrame.

(** A property of the world that the four updates of the multiplexer
    keep. *)
Variable P : World -> Prop.
Hypothesis P_read_list : forall l w, P w -> P (set_read_list l w).
Hypothesis P_console : forall c w, P w -> P (set_console c w).
Hypothesis P_address : forall a w, P w -> P (set_address a w).
Hypothesis P_data_queue : forall q w, P w -> P (set_data_queue q w).

Lemma handle_readable_preserves (s : socket) (net : SelectEnv) :
  preserves P (handle_readable s net).
Proof.
  assert (Hlog : forall msg, preserves P (log_address msg)).
  { intros msg. unfold log_address.
    apply preserves_bind; [apply preserves_get | intros w].
    destruct (address w); [| apply preserves_raise].
    apply preserves_modify. intros w' H. now apply P_console. }
  assert (Hrem : preserves P (read_list_remove s)).
  { unfold read_list_remove.
    apply preserves_bind; [apply preserves_get | intros w].
    destruct (list_remove s (read_list w)); [| apply preserves_raise].
    apply preserves_modify. intros w' H. now apply P_read_list. }
  unfold handle_readable.
  apply preserves_bind; [apply preserves_get | intros w].
  destruct (Nat.eqb s (serversocket w)).
  - apply preserves_bind; [apply preserves_lift | intros r].
    apply preserves_bind;
      [apply preserves_modify; intros w' H; now apply P_address | intros _].
    apply preserves_bind;
      [apply preserves_modify; intros w' H; now apply P_read_list | intros _].
    apply Hlog.
  - apply preserves_try_except.
    + apply preserves_bind.
      * unfold recv. destruct (recv_outcome net);
          [apply preserves_raise | apply preserves_ret].
      * intros data. destruct (truthy_list data).
        -- apply preserves_modify. intros w' H. now apply P_data_queue.
        -- apply preserves_bind; [apply Hrem | intros _]. apply Hlog.
    + intros _. apply preserves_bind; [apply Hrem | intros _]. apply Hlog.
Qed.

Lemma select_round_preserves (readable : list (socket * SelectEnv)) :
  preserves P (select_round readable).
Proof.
  induction readable as [| [s net] rest IH]; simpl.
  - apply preserves_ret.
  - apply preserves_bind; [apply handle_readable_preserves | intros _].
    exact IH.
Qed.

Lemma serve_preserves (rounds : list (list (socket * SelectEnv))) :
  preserves P (serve rounds).
Proof.
  induction rounds as [| readable rounds IH]; simpl.
  - apply preserves_ret.
  - apply preserves_bind; [apply select_round_preserves | intros _].
    exact IH.
Qed.

End MultiplexerFrame.

(** The multiplexer touches neither the transcriber nor the
    synthesizer. *)
Lemma serve_keeps_models (rounds : list (list (socket * SelectEnv))) (w : World) :
  transcriber (snd (serve rounds w)) = transcriber w /\
  text_to_speech (snd (serve rounds w)) = text_to_speech w.
Proof.
  apply (serve_preserves
           (fun w' => transcriber w' = transcriber w /\
                      text_to_speech w' = text_to_speech w));
    try (intros ? ? H; exact H).
  split; reflexivity.
Qed.

(** The world in which the loop of [start] begins. *)
Lemma start_prologue (rounds : list (list (socket * SelectEnv)))
  (shutdown : exn + unit) (w : World) :
  start (inr tt) rounds shutdown w =
  (serve rounds ;; cleanup shutdown)
    (set_read_list [serversocket w]
       (set_console (console w ++ ["Listening on port 4444"])
          (set_transcriber (with_kill_thread false (transcriber w)) w))).
Proof. reflexivity. Qed.

Section Stopping.

Context {env : Environment}.

Lemma stopped_worker_does_nothing (n : nat) (rate width : Z) (w : World) :
  _kill_thread (transcriber w) = true ->
  __worker__ n rate width w = (Return tt, w).
Proof.
  intros Hk. destruct n; [reflexivity |].
  simpl. unfold bind, get. now rewrite Hk.
Qed.

(** X4.  When the interrupt ends a loop of [start] that has not raised,
    the cleanup runs: it sets the flag of the segmentation worker, also
    when the shutdown of the listening socket fails afterwards.  From
    then on the worker's loop does nothing any more, so that the chunks
    left in the ingestion queue are never taken; the cleanup leaves the
    queue and the monitored set as the loop left them. *)
Theorem interrupt_stops_the_worker
  (rounds : list (list (socket * SelectEnv))) (shutdown : exn + unit)
  (w : World) :
  let listening :=
    set_read_list [serversocket w]
      (set_console (console w ++ ["Listening on port 4444"])
         (set_transcriber (with_kill_thread false (transcriber w)) w)) in
  fst (serve rounds listening) = Return tt ->
  let r := start (inr tt) rounds shutdown w in
  fst r = match shutdown with inr _ => Return tt | inl e => Raise e end /\
  _kill_thread (transcriber (snd r)) = true /\
  data_queue (snd r) = data_queue (snd (serve rounds listening)) /\
  read_list (snd r) = read_list (snd (serve rounds listening)) /\
  forall (n : nat) (rate width : Z),
    __worker__ n rate width (snd r) = (Return tt, snd r).
Proof.
  intros listening Hserve r.
  assert (Hrun : exists w',
            r = (match shutdown with inr _ => Return tt | inl e => Raise e end,
                 w') /\
            _kill_thread (transcriber w') = true /\
            data_queue w' = data_queue (snd (serve rounds listening)) /\
            read_list w' = read_list (snd (serve rounds listening))).
  { subst r. rewrite start_prologue. fold listening. unfold bind at 1.
    destruct (serve rounds listening) as [[[] | e] w1]; [| discriminate].
    unfold cleanup, stop. py_unfold.
    destruct shutdown as [e | []]; eexists;
      (split; [reflexivity |]); repeat split. }
  destruct Hrun as (w' & -> & Hk & Hq & Hrl). cbn [fst snd].
  split; [reflexivity |]. split; [exact Hk |]. split; [exact Hq |].
  split; [exact Hrl |].
  intros n rate width. apply stopped_worker_does_nothing. exact Hk.
Qed.

(** X5.  When [bind] fails, or when an exception leaves the loop,
    [start] raises it without running the cleanup: the world is the one
    that the failed statement has left, and the flag that [start] has
    cleared before is still clear, so the segmentation worker that it
    has started goes on. *)
Theorem failed_start_leaves_the_worker_running
  (bound : exn + unit) (rounds : list (list (socket * SelectEnv)))
  (shutdown : exn + unit) (e : exn) (w : World) :
  let started :=
    set_console (console w ++ ["Listening on port 4444"])
      (set_transcriber (with_kill_thread false (transcriber w)) w) in
  let listening := set_read_list [serversocket w] started in
  bound = inl e \/
  (bound = inr tt /\ fst (serve rounds listening) = Raise e) ->
  let r := start bound rounds shutdown w in
  fst r = Raise e /\
  _kill_thread (transcriber (snd r)) = false /\
  snd r = match bound with
          | inl _ => started
          | inr _ => snd (serve rounds listening)
          end.
Proof.
  intros started listening [Hb | [Hb Hs]] r.
  - subst r bound. repeat split.
  - assert (Hrun : r = (Raise e, snd (serve rounds listening))).
    { subst r bound. rewrite start_prologue. fold started listening.
      unfold bind at 1.
      destruct (serve rounds listening) as [[[] | e'] w1]; [discriminate |].
      simpl in Hs. now injection Hs as ->. }
    rewrite Hrun, Hb. cbn [fst snd]. split; [reflexivity |].
    split; [| reflexivity].
    destruct (serve_keeps_models rounds listening) as [Ht _].
    now rewrite Ht.
Qed.

End Stopping.

Lemma interrupt_stops_the_worker_witness :
  fst (serve [[(0, connect_5)]; [(5, two_bytes_pending)]]
         (set_read_list [0]
            (set_console (console no_client ++ ["Listening on port 4444"])
               (set_transcriber
                  (with_kill_thread false (transcriber no_client))
                  no_client)))) = Return tt /\
  (let r := start (inr tt) [[(0, connect_5)]; [(5, two_bytes_pending)]]
              (inr tt) no_client in
   fst r = Return tt /\
   _kill_thread (transcriber (snd r)) = true /\
   data_queue (snd r) = [(5, [x01; x02])] /\
   read_list (snd r) = [0; 5] /\
   forall (n : nat) (rate width : Z),
     @__worker__ hello_env n rate width (snd r) = (Return tt, snd r)).
Proof.
  split; [reflexivity |].
  exact (@interrupt_stops_the_worker hello_env
           [[(0, connect_5)]; [(5, two_bytes_pending)]] (inr tt) no_client
           eq_refl).
Defined.

Lemma failed_start_leaves_the_worker_running_witness :
  (inl (OSError "Address already in use") : exn + unit) =
    inl (OSError "Address already in use") /\
  (let r := start (inl (OSError "Address already in use")) [] (inr tt)
              no_client in
   fst r = Raise (OSError "Address already in use") /\
   _kill_thread (transcriber (snd r)) = false /\
   snd r =
     set_console (console no_client ++ ["Listening on port 4444"])
       (set_transcriber (with_kill_thread false (transcriber no_client))
          no_client)).
Proof.
  split; [reflexivity |].
  exact (failed_start_leaves_the_worker_running
           (inl (OSError "Address already in use")) [] (inr tt)
           (OSError "Address already in use") no_client (or_introl eq_refl)).
Defined.

(** ** Failures in the synthesis worker *)

Section WorkerFailures.

Context {env : Environment}.

(** X6.  The loop of the synthesis worker has no handler.  When the
    engine fails on the task at the head of the queue, the task has
    been taken already and is lost, nothing is produced for it, and the
    exception ends the loop: the tasks behind it stay in the queue,
    whatever the number of iterations the loop had left. *)
Theorem engine_failure_ends_the_worker (client : option socket)
  (text : string) (rest : list (option socket * string)) (emb : Embedding)
  (e : exn) (o : SendOutcome) (sends : list SendOutcome) (w : World) :
  task_queue (text_to_speech w) = (client, text) :: rest ->
  tts_kill_thread (text_to_speech w) = false ->
  speaker_embeddings (text_to_speech w) = Some (Some emb) ->
  processor text = inl e \/
  (exists ids, processor text = inr ids /\ generate_speech ids emb = inl e) ->
  worker (o :: sends) w =
  (Raise e, set_text_to_speech (with_task_queue rest (text_to_speech w)) w).
Proof.
  intros Hq Hk He Hfail. cbn [worker]. unfold bind at 1. unfold get at 1.
  rewrite Hk. unfold bind at 1. unfold worker_iteration.
  unfold bind at 1. unfold get at 1. rewrite Hq.
  unfold bind at 1. unfold modify_text_to_speech, modify at 1.
  unfold bind at 1. unfold synthesise_blocking.
  destruct Hfail as [Hp | (ids & Hp & Hg)].
  - unfold bind at 1. rewrite Hp. reflexivity.
  - unfold bind at 1. rewrite Hp. unfold lift at 1, ret at 1.
    unfold bind at 1. unfold get at 1. fields. rewrite He.
    unfold bind at 1. rewrite Hg. reflexivity.
Qed.

(** X7.  When the send of a result fails with an error other than a
    connection reset, the dispatcher does not catch it and the worker
    does not either: the result has been produced and part of it may
    have been written, the client stays in the monitored set, and the
    exception ends the loop with the tasks behind it still queued. *)
Theorem send_failure_ends_the_worker (s : socket) (text : string)
  (rest : list (option socket * string)) (emb : Embedding) (audio : Tensor)
  (n : nat) (e : exn) (sends : list SendOutcome) (w : World) :
  task_queue (text_to_speech w) = (Some s, text) :: rest ->
  tts_kill_thread (text_to_speech w) = false ->
  speaker_embeddings (text_to_speech w) = Some (Some emb) ->
  synthesised emb text = Some audio ->
  is_ConnectionResetError e = false ->
  let r := worker (SendFails n e :: sends) w in
  fst r = Raise e /\
  task_queue (text_to_speech (snd r)) = rest /\
  read_list (snd r) = read_list w /\
  trace (snd r) =
    trace w ++ [SynthesisResult (Some s) audio;
                Sent s (firstn n (tobytes audio))].
Proof.
  intros Hq Hk He Hsyn Hne r.
  assert (Hrun : r =
            (Raise e,
             set_trace
               (trace w ++ [SynthesisResult (Some s) audio;
                            Sent s (firstn n (tobytes audio))])
               (set_console (console w ++ [("synthesize : " ++ text)%string])
                  (set_text_to_speech
                     (with_task_queue rest (text_to_speech w)) w)))).
  { subst r. cbn [worker]. unfold bind at 1. unfold get at 1.
    rewrite Hk. unfold bind at 1. unfold worker_iteration.
    unfold bind at 1. unfold get at 1. rewrite Hq.
    unfold bind at 1. unfold modify_text_to_speech, modify at 1.
    unfold bind at 1.
    rewrite (synthesise_blocking_succeeds text emb audio);
      [| exact He | exact Hsyn].
    unfold callback_function, handle_synthesize. unfold bind at 1.
    unfold emit at 1, modify at 1.
    rewrite (stream_numpy_array_audio_other_error n e audio s _ Hne).
    fields. now rewrite <- app_assoc. }
  rewrite Hrun. repeat split.
Qed.

End WorkerFailures.

Lemma engine_failure_ends_the_worker_witness :
  task_queue (text_to_speech two_tasks) =
    [(Some 5, "hello"); (Some 5, "again")] /\
  @worker tokenizer_fails [SendAll; SendAll] two_tasks =
    (Raise (RuntimeError "tokenizer"),
     set_text_to_speech
       (with_task_queue [(Some 5, "again")] (text_to_speech two_tasks))
       two_tasks).
Proof.
  split; [reflexivity |].
  exact (@engine_failure_ends_the_worker tokenizer_fails
           (Some 5) "hello" [(Some 5, "again")] {| xvector := [7306%Z] |}
           (RuntimeError "tokenizer") SendAll [SendAll] two_tasks
           eq_refl eq_refl eq_refl (or_introl eq_refl)).
Defined.

Lemma send_failure_ends_the_worker_witness :
  task_queue (text_to_speech two_tasks) =
    [(Some 5, "hello"); (Some 5, "again")] /\
  (let r := @worker hello_env [SendFails 0 BrokenPipeError; SendAll]
              two_tasks in
   fst r = Raise BrokenPipeError /\
   task_queue (text_to_speech (snd r)) = [(Some 5, "again")] /\
   read_list (snd r) = [0; 5; 6] /\
   trace (snd r) =
     [SynthesisResult (Some 5) {| tobytes := [x2a] |}; Sent 5 []]).
Proof.
  split; [reflexivity |].
  exact (@send_failure_ends_the_worker hello_env 5 "hello"
           [(Some 5, "again")] {| xvector := [7306%Z] |}
           {| tobytes := [x2a] |} 0 BrokenPipeError [SendAll] two_tasks
           eq_refl eq_refl eq_refl eq_refl eq_refl).
Defined.

(** ** A tick in general *)

Section GeneralTick.

Context {env : Environment}.

Lemma obj_eqb_true (c : socket) (o : option socket) :
  obj_eqb (Some c) o = true -> o = Some c.
Proof.
  destruct o as [x |]; simpl; [| discriminate].
  intros H. apply Nat.eqb_eq in H. now subst.
Qed.

Lemma truthy_str_false (s : string) : truthy_str s = false <-> s = "".
Proof. destruct s; simpl; split; congruence. Qed.

Lemma concatenate_item_general (c : socket) (d : bytes) (w : World) :
  profile_loaded w = true ->
  exists w',
    concatenate_item c d w = (Return tt, w') /\
    profile_loaded w' = true /\
    current_client (transcriber w') = Some c /\
    (recent_transcription (transcriber w) = "" ->
     recent_transcription (transcriber w') = "") /\
    settings_kept w w' /\
    data_queue w' = data_queue w /\
    exists fps, trace w' = trace w ++ fps /\
                forallb is_FinalizedPhrase fps = true.
Proof.
  intros Hl.
  destruct (obj_eqb (Some c) (current_client (transcriber w))) eqn:Hc.
  - apply obj_eqb_true in Hc.
    rewrite (concatenate_item_same c d w Hc). eexists.
    split; [reflexivity |]. split; [exact Hl |]. split; [reflexivity |].
    split; [intros H; exact H |]. split; [split; [reflexivity | intros H; exact H] |].
    split; [reflexivity |]. exists []. split; [now rewrite app_nil_r | reflexivity].
  - rewrite (concatenate_item_switch c d w Hc Hl). eexists.
    split; [reflexivity |]. split; [exact Hl |]. split; [reflexivity |].
    split; [reflexivity |].
    split; [split; [reflexivity | intros _; discriminate] |].
    split; [reflexivity |]. eexists. split; reflexivity.
Qed.

Lemma concatenate_loop_general (items : list (socket * bytes)) :
  forall w : World,
    profile_loaded w = true ->
    exists w',
      concatenate_loop items w = (Return tt, w') /\
      profile_loaded w' = true /\
      (items <> [] -> current_client (transcriber w') <> None) /\
      (items <> [] -> data_queue w' = []) /\
      (recent_transcription (transcriber w) = "" ->
       recent_transcription (transcriber w') = "") /\
      settings_kept w w' /\
      exists fps, trace w' = trace w ++ fps /\
                  forallb is_FinalizedPhrase fps = true.
Proof.
  induction items as [| [c d] rest IH]; intros w Hl.
  - exists w. split; [reflexivity |]. split; [exact Hl |].
    split; [congruence |]. split; [congruence |].
    split; [intros H; exact H |].
    split; [split; [reflexivity | intros H; exact H] |].
    exists []. split; [now rewrite app_nil_r | reflexivity].
  - cbn [concatenate_loop]. unfold bind at 1. unfold modify at 1.
    unfold bind at 1.
    destruct (concatenate_item_general c d (set_data_queue rest w) Hl)
      as (w1 & Hw1 & Hl1 & Hc1 & Hr1 & [Ht1 Hp1] & Hq1 & fps1 & Htr1 & Hf1).
    rewrite Hw1.
    destruct (IH w1 Hl1)
      as (w' & Hw' & Hl' & Hc' & Hq' & Hr' & [Ht' Hp'] & fps & Htr & Hf).
    exists w'. split; [exact Hw' |]. split; [exact Hl' |]. split.
    + intros _. destruct rest as [| it rest'].
      * injection Hw' as <-. rewrite Hc1. discriminate.
      * apply Hc'. discriminate.
    + split.
      { intros _. destruct rest as [| it rest'].
        - injection Hw' as <-. exact Hq1.
        - apply Hq'. discriminate. }
      split; [intros H; apply Hr', Hr1; exact H |].
      split.
      * split; [rewrite Ht', Ht1; reflexivity |].
        intros H. apply Hp', Hp1. exact H.
      * exists (fps1 ++ fps). split.
        -- rewrite Htr, Htr1. fields. now rewrite app_assoc.
        -- now rewrite forallb_app, Hf1, Hf.
Qed.

Lemma transcribe_general (rate width : Z) (phrase_complete : bool) (w : World) :
  profile_loaded w = true ->
  phrase_complete && truthy_str (recent_transcription (transcriber w)) = false ->
  exists w',
    __transcribe_audio__ rate width phrase_complete w = (Return tt, w') /\
    profile_loaded w' = true /\
    current_client (transcriber w') = current_client (transcriber w) /\
    data_queue w' = data_queue w /\
    settings_kept w w' /\
    exists tus, trace w' = trace w ++ tus /\
      (tus = [] \/ exists add text dt, tus = [TranscriptionUpdate add text dt]).
Proof.
  intros Hl Hg.
  destruct (transcribe_text (last_sample (transcriber w)) rate width)
    as [e | [text dt]] eqn:He.
  - rewrite (transcribe_raises rate width phrase_complete e w He).
    eexists. split; [reflexivity |]. split; [exact Hl |].
    split; [reflexivity |]. split; [reflexivity |].
    split; [split; [reflexivity | intros H; exact H] |].
    exists []. split; [now rewrite app_nil_r | now left].
  - rewrite (transcribe_returns rate width phrase_complete text dt w He Hl).
    unfold transcribed_world. destruct (truthy_str text).
    + fields. rewrite Hg. cbn [andb]. eexists.
      split; [reflexivity |]. split; [exact Hl |]. split; [reflexivity |].
      split; [reflexivity |].
      split; [split; [reflexivity | intros H; exact H] |].
      eexists. split; [reflexivity |]. right. eauto.
    + exists w. split; [reflexivity |]. split; [exact Hl |].
      split; [reflexivity |]. split; [reflexivity |].
      split; [split; [reflexivity | intros H; exact H] |].
      exists []. split; [now rewrite app_nil_r | now left].
Qed.

(** A tick of the worker in a world that satisfies the invariant. *)
Lemma worker_tick_general (rate width : Z) (w : World) :
  server_invariant w ->
  exists w',
    worker_tick rate width w = (Return tt, w') /\
    server_invariant w' /\
    data_queue w' = [] /\
    tick_shape (events_since (List.length (trace w)) w').
Proof.
  intros (Hl & Hto & Hpt & Hown).
  unfold worker_tick. unfold bind at 1. unfold utcnow at 1.
  set (now := utcnow_reading (clock_reads w)).
  set (w0 := set_clock_reads (S (clock_reads w)) w).
  unfold bind at 1.
  (* the world after the flush *)
  assert (Hflush : exists w1 fp,
            __flush_last_phrase__ now w0 = (Return tt, w1) /\
            profile_loaded w1 = true /\
            phrase_timeout (transcriber w1) = 1%Z /\
            phrase_time (transcriber w1) <> None /\
            current_client (transcriber w1) = current_client (transcriber w) /\
            data_queue w1 = data_queue w /\
            trace w1 = trace w ++ fp /\
            forallb is_FinalizedPhrase fp = true /\
            (recent_transcription (transcriber w1) =
               recent_transcription (transcriber w) \/
             recent_transcription (transcriber w1) = "") /\
            (phrase_timed_out (transcriber w1) now = true ->
             recent_transcription (transcriber w1) = "")).
  { destruct (flush_fires (transcriber w0) now) eqn:Hf.
    - rewrite (flush_fires_loaded now w0 Hf Hl).
      exists (flushed_world now w0). eexists.
      split; [reflexivity |]. split; [exact Hl |]. split; [exact Hto |].
      split; [discriminate |]. split; [reflexivity |].
      split; [reflexivity |]. split; [reflexivity |].
      split; [reflexivity |]. split; [now right |]. intros _. reflexivity.
    - rewrite (flush_skips now w0 Hf).
      exists w0, []. split; [reflexivity |]. split; [exact Hl |].
      split; [exact Hto |]. split; [exact Hpt |]. split; [reflexivity |].
      split; [reflexivity |]. split; [subst w0; fields; now rewrite app_nil_r |].
      split; [reflexivity |]. split; [now left |].
      intros Htimed. change (transcriber w0) with (transcriber w) in *.
      unfold flush_fires in Hf. rewrite Htimed in Hf. cbn [andb] in Hf.
      destruct (truthy_str (recent_transcription (transcriber w))) eqn:Hrec.
      + exfalso. cbn [andb] in Hf.
        assert (Hne : recent_transcription (transcriber w) <> "").
        { intros H. rewrite H in Hrec. discriminate. }
        specialize (Hown Hne).
        destruct (current_client (transcriber w)); [discriminate | congruence].
      + now apply truthy_str_false. }
  destruct Hflush
    as (w1 & fp & Hw1 & Hl1 & Hto1 & Hpt1 & Hc1 & Hq1 & Htr1 & Hfp & Hrec1 & Htimed1).
  rewrite Hw1. unfold bind at 1. unfold get at 1.
  assert (Hown1 : pending_has_owner w1).
  { intros Hne. rewrite Hc1. destruct Hrec1 as [Hsame | Hempty];
      [apply Hown; now rewrite <- Hsame | congruence]. }
  destruct (truthy_list (data_queue w1)) eqn:Hdq.
  - (* chunks are pending *)
    unfold bind at 1. rewrite update_phrase_time_spec.
    set (pc := phrase_timed_out (transcriber w1) now).
    assert (Hpc : pc = true -> recent_transcription (transcriber w1) = "")
      by exact Htimed1.
    set (w2 := if pc
               then set_transcriber
                      (with_last_sample []
                         (with_phrase_time (Some now) (transcriber w1))) w1
               else w1).
    assert (Hupd : (if pc
                    then (Return true,
                          set_transcriber
                            (with_last_sample []
                               (with_phrase_time (Some now) (transcriber w1)))
                            w1)
                    else (Return false, w1)) = (Return pc, w2)).
    { subst w2. destruct pc; reflexivity. }
    rewrite Hupd. unfold bind at 1. unfold __concatenate_new_audio__.
    unfold bind at 1. unfold get at 1.
    assert (H2 : profile_loaded w2 = true /\
                 phrase_timeout (transcriber w2) = 1%Z /\
                 phrase_time (transcriber w2) <> None /\
                 recent_transcription (transcriber w2) =
                   recent_transcription (transcriber w1) /\
                 data_queue w2 = data_queue w1 /\
                 trace w2 = trace w1).
    { subst w2. destruct pc; repeat split; try assumption; discriminate. }
    destruct H2 as (Hl2 & Hto2 & Hpt2 & Hrec2 & Hq2 & Htr2).
    destruct (concatenate_loop_general (data_queue w2) w2 Hl2)
      as (w3 & Hw3 & Hl3 & Hc3 & Hq3 & Hr3 & [Hto3 Hpt3] & fps & Htr3 & Hfps).
    rewrite Hw3.
    assert (Hne : data_queue w2 <> []).
    { rewrite Hq2. destruct (data_queue w1); [discriminate | discriminate]. }
    destruct (transcribe_general rate width pc w3 Hl3)
      as (w4 & Hw4 & Hl4 & Hc4 & Hq4 & [Hto4 Hpt4] & tus & Htr4 & Htus).
    { destruct pc; [| reflexivity]. cbn [andb].
      apply truthy_str_false. apply Hr3. rewrite Hrec2. now apply Hpc. }
    exists w4. split; [exact Hw4 |]. split.
    + split; [exact Hl4 |]. split; [now rewrite Hto4, Hto3 |].
      split; [apply Hpt4, Hpt3, Hpt2 |].
      intros _. rewrite Hc4. now apply Hc3.
    + split; [rewrite Hq4; now apply Hq3 |].
      exists (fp ++ fps), tus. split.
      * apply events_since_app. rewrite Htr4, Htr3, Htr2, Htr1.
        now rewrite !app_assoc.
      * split; [now rewrite forallb_app, Hfp, Hfps | exact Htus].
  - (* nothing to take *)
    exists w1. split; [reflexivity |]. split.
    + split; [exact Hl1 |]. split; [exact Hto1 |]. split; [exact Hpt1 |].
      exact Hown1.
    + split; [destruct (data_queue w1); [reflexivity | discriminate] |].
      exists fp, []. split.
      * apply events_since_app. now rewrite app_nil_r.
      * split; [exact Hfp | now left].
Qed.

End GeneralTick.

(** ** The invariant of the server *)

Section SynthesisFrame.

Context {env : Environment}.

(** A property of the world that the updates of the synthesis worker
    and of the dispatcher keep. *)
Variable P : World -> Prop.
Hypothesis P_task_queue :
  forall q w, P w -> P (set_text_to_speech (with_task_queue q (text_to_speech w)) w).
Hypothesis P_console : forall c w, P w -> P (set_console c w).
Hypothesis P_trace : forall t w, P w -> P (set_trace t w).
Hypothesis P_read_list : forall l w, P w -> P (set_read_list l w).

Lemma stream_preserves (o : SendOutcome) (audio : Tensor)
  (client : option socket) :
  preserves P (stream_numpy_array_audio o audio client).
Proof.
  assert (Hlog : forall line, preserves P (console_log line)).
  { intros line. apply preserves_modify. intros w H. now apply P_console. }
  assert (Hemit : forall ev, preserves P (emit ev)).
  { intros ev. apply preserves_modify. intros w H. now apply P_trace. }
  unfold stream_numpy_array_audio. destruct client as [s |]; [| apply Hlog].
  apply preserves_try_except.
  - unfold sendall. destruct o; [apply Hemit |].
    apply preserves_bind; [apply Hemit | intros _]. apply preserves_raise.
  - intros e. apply preserves_bind; [apply Hlog | intros _].
    apply preserves_bind; [apply preserves_get | intros w].
    destruct (list_contains s (read_list w)); [| apply preserves_ret].
    unfold read_list_remove.
    apply preserves_bind; [apply preserves_get | intros w'].
    destruct (list_remove s (read_list w')); [| apply preserves_raise].
    apply preserves_modify. intros w'' H. now apply P_read_list.
Qed.

Lemma worker_iteration_preserves (o : SendOutcome) :
  preserves P (worker_iteration o).
Proof.
  unfold worker_iteration.
  apply preserves_bind; [apply preserves_get | intros w].
  destruct (task_queue (text_to_speech w)) as [| [client text] rest];
    [apply preserves_ret |].
  apply preserves_bind.
  { apply preserves_modify. intros w' H. now apply P_task_queue. }
  intros _. apply preserves_bind.
  - unfold synthesise_blocking.
    apply preserves_bind; [apply preserves_lift | intros ids].
    apply preserves_bind; [apply preserves_get | intros w'].
    destruct (speaker_embeddings (text_to_speech w')) as [[emb |] |];
      try apply preserves_raise.
    apply preserves_bind; [apply preserves_lift | intros speech].
    apply preserves_bind; [| intros _; apply preserves_ret].
    apply preserves_modify. intros w'' H. now apply P_console.
  - intros audio. unfold callback_function, handle_synthesize.
    apply preserves_bind; [| intros _; apply stream_preserves].
    apply preserves_modify. intros w' H. now apply P_trace.
Qed.

End SynthesisFrame.

Section Invariant.

Context {env : Environment}.

Lemma boot_invariant (srv : socket) : server_invariant (boot srv).
Proof.
  split; [reflexivity |]. split; [reflexivity |]. split; [discriminate |].
  intros H. exfalso. apply H. reflexivity.
Qed.

Lemma step_invariant (w w' : World) :
  step w w' -> server_invariant w -> server_invariant w'.
Proof.
  intros Hstep Hinv.
  destruct Hstep as [s net w w' _ Hrun | w w' _ Hrun | o w w' _ Hrun].
  - pose proof (handle_readable_preserves server_invariant) as H.
    specialize (H (fun _ _ h => h) (fun _ _ h => h) (fun _ _ h => h)
                  (fun _ _ h => h) s net w Hinv).
    now rewrite Hrun in H.
  - destruct (worker_tick_general 16000 2 w Hinv) as (w1 & Hw1 & Hinv1 & _).
    rewrite Hw1 in Hrun. now injection Hrun as <-.
  - pose proof (worker_iteration_preserves server_invariant) as H.
    specialize (H (fun _ _ h => h) (fun _ _ h => h) (fun _ _ h => h)
                  (fun _ _ h => h) o w Hinv).
    now rewrite Hrun in H.
Qed.

Lemma reachable_invariant (srv : socket) (w : World) :
  reachable srv w -> server_invariant w.
Proof.
  induction 1 as [| w w' _ IH Hstep].
  - apply boot_invariant.
  - exact (step_invariant w w' Hstep IH).
Qed.

(** X8.  In every state that the server reaches: the voice profile is
    loaded, so the configuration error of [synthesise] cannot occur;
    the phrase timeout is the one second that the constructor sets;
    [phrase_time] is set, so the first test of the two boundary checks
    never fails; and a text that is pending has an owner. *)
Theorem server_invariant_holds (srv : socket) (w : World) :
  reachable srv w ->
  profile_loaded w = true /\
  phrase_timeout (transcriber w) = 1%Z /\
  phrase_time (transcriber w) <> None /\
  (recent_transcription (transcriber w) <> "" ->
   current_client (transcriber w) <> None).
Proof.
  intros Hr. exact (reachable_invariant srv w Hr).
Qed.

(** X9.  In every state that the server reaches, a tick of the
    segmentation worker returns: no exception leaves it, whatever the
    engine does, so the worker's loop cannot end but by its flag.  The
    tick leaves no chunk behind in the ingestion queue.  Its events are
    finalized phrases followed by at most one transcription update: no
    phrase is finalized after the update, that is, the transcription
    step never takes its own finalizing branch. *)
Theorem tick_returns_in_the_server (srv : socket) (rate width : Z) (w : World) :
  reachable srv w ->
  let r := worker_tick rate width w in
  fst r = Return tt /\
  data_queue (snd r) = [] /\
  exists fps tus,
    events_since (List.length (trace w)) (snd r) = fps ++ tus /\
    forallb is_FinalizedPhrase fps = true /\
    (tus = [] \/ exists add text dt, tus = [TranscriptionUpdate add text dt]).
Proof.
  intros Hr r.
  destruct (worker_tick_general rate width w (reachable_invariant srv w Hr))
    as (w' & Hw' & _ & Hq & Hshape).
  subst r. rewrite Hw'. split; [reflexivity |]. split; [exact Hq | exact Hshape].
Qed.

End Invariant.

Lemma server_invariant_holds_witness :
  @reachable hello_env 0 fresh_server /\
  profile_loaded fresh_server = true /\
  phrase_timeout (transcriber fresh_server) = 1%Z /\
  phrase_time (transcriber fresh_server) <> None /\
  (recent_transcription (transcriber fresh_server) <> "" ->
   current_client (transcriber fresh_server) <> None).
Proof.
  assert (Hr : @reachable hello_env 0 fresh_server) by constructor.
  split; [exact Hr |].
  exact (@server_invariant_holds hello_env 0 fresh_server Hr).
Defined.

Lemma tick_returns_in_the_server_witness :
  @reachable hello_env 0 fresh_server /\
  (let r := @worker_tick hello_env 16000 2 fresh_server in
   fst r = Return tt /\
   data_queue (snd r) = [] /\
   exists fps tus,
     events_since (List.length (trace fresh_server)) (snd r) = fps ++ tus /\
     forallb is_FinalizedPhrase fps = true /\
     (tus = [] \/ exists add text dt, tus = [TranscriptionUpdate add text dt])).
Proof.
  assert (Hr : @reachable hello_env 0 fresh_server) by constructor.
  split; [exact Hr |].
  exact (@tick_returns_in_the_server hello_env 0 16000 2 fresh_server Hr).
Defined.

(** ** The continuation of a phrase *)

Section Continuation.

Context {env : Environment}.

(** The transcription step of a tick without a boundary. *)
Lemma transcribe_not_complete (rate width : Z) (w : World) :
  __transcribe_audio__ rate width false w =
  match transcribe_text (last_sample (transcriber w)) rate width with
  | inl e =>
      (Return tt,
       set_console
         (console w ++ [("Error during transcription: " ++ str_exn e)%string]) w)
  | inr (text, dt) =>
      if truthy_str text then
        (Return tt,
         set_transcriber
           (with_recent_transcription text (transcriber w))
           (set_trace (trace w ++ [TranscriptionUpdate false text dt]) w))
      else (Return tt, w)
  end.
Proof.
  unfold __transcribe_audio__, generation_callback, handle_generation.
  py_unfold.
  destruct (transcribe_text (last_sample (transcriber w)) rate width)
    as [e | [text dt]]; [reflexivity |].
  cbn [fst snd]. destruct (truthy_str text); reflexivity.
Qed.

Lemma continuation_tick_run (rate width : Z) (c : socket) (w : World) :
  current_client (transcriber w) = Some c ->
  all_from c (data_queue w) = true ->
  data_queue w <> [] ->
  phrase_timed_out (transcriber w) (utcnow_reading (clock_reads w)) = false ->
  worker_tick rate width w =
  __transcribe_audio__ rate width false
    (drained c (chunks (data_queue w)) (set_clock_reads (S (clock_reads w)) w)).
Proof.
  intros Hc Hall Hne Hto.
  unfold worker_tick. unfold bind at 1. unfold utcnow at 1.
  set (now := utcnow_reading (clock_reads w)) in *.
  set (w0 := set_clock_reads (S (clock_reads w)) w).
  unfold bind at 1.
  rewrite flush_skips;
    [| unfold flush_fires; change (transcriber w0) with (transcriber w);
       now rewrite Hto ].
  unfold bind at 1. unfold get at 1.
  change (data_queue w0) with (data_queue w).
  destruct (data_queue w) as [| it q] eqn:Hq; [congruence |].
  cbn [truthy_list]. unfold bind at 1. rewrite update_phrase_time_spec.
  change (transcriber w0) with (transcriber w). rewrite Hto.
  unfold bind at 1. unfold __concatenate_new_audio__.
  unfold bind at 1. unfold get at 1.
  change (data_queue w0) with (data_queue w). rewrite Hq.
  rewrite (concatenate_loop_same c (it :: q) w0);
    [reflexivity | exact Hq | exact Hc | exact Hall].
Qed.

(** X10.  A tick that takes chunks of the current client before the
    timeout has passed continues the phrase: nothing is finalized, the
    chunks are appended to the buffer in their order, [phrase_time] is
    not moved, the queue is empty afterwards, and the engine is called
    on the whole buffer.  A text that is not empty is reported with
    [add = False] and becomes [recent_transcription]; an empty text or
    a failure of the engine reports nothing and keeps the previous
    [recent_transcription]. *)
Theorem continuation_tick (rate width : Z) (c : socket) (w : World) :
  current_client (transcriber w) = Some c ->
  all_from c (data_queue w) = true ->
  data_queue w <> [] ->
  phrase_timed_out (transcriber w) (utcnow_reading (clock_reads w)) = false ->
  let buffer := last_sample (transcriber w) ++ chunks (data_queue w) in
  let r := worker_tick rate width w in
  let events := events_since (List.length (trace w)) (snd r) in
  fst r = Return tt /\
  last_sample (transcriber (snd r)) = buffer /\
  phrase_time (transcriber (snd r)) = phrase_time (transcriber w) /\
  current_client (transcriber (snd r)) = Some c /\
  data_queue (snd r) = [] /\
  match transcribe_text buffer rate width with
  | inr (text, dt) =>
      if truthy_str text then
        events = [TranscriptionUpdate false text dt] /\
        recent_transcription (transcriber (snd r)) = text
      else
        events = [] /\
        recent_transcription (transcriber (snd r)) =
          recent_transcription (transcriber w)
  | inl _ =>
      events = [] /\
      recent_transcription (transcriber (snd r)) =
        recent_transcription (transcriber w)
  end.
Proof.
  intros Hc Hall Hne Hto buffer r events. subst events r.
  rewrite (continuation_tick_run rate width c w Hc Hall Hne Hto).
  rewrite transcribe_not_complete.
  change (last_sample (transcriber
            (drained c (chunks (data_queue w))
               (set_clock_reads (S (clock_reads w)) w)))) with buffer.
  destruct (transcribe_text buffer rate width) as [e | [text dt]].
  - repeat split. apply events_since_app. simpl. now rewrite app_nil_r.
  - destruct (truthy_str text).
    + repeat split. apply events_since_app. reflexivity.
    + repeat split. apply events_since_app. simpl. now rewrite app_nil_r.
Qed.

Lemma select_round_reads (c : socket) (ds : list bytes) :
  forall w : World,
    c <> serversocket w ->
    Forall (fun d => d <> []) ds ->
    select_round (reads c ds) w =
    (Return tt,
     set_data_queue
       (data_queue w ++ map (fun d => (c, firstn 4096 d)) ds) w).
Proof.
  induction ds as [| d ds IH]; intros w Hc Hds.
  - simpl. unfold ret. f_equal. rewrite app_nil_r. now destruct w.
  - inversion Hds as [| ? ? Hd Hds']; subst.
    cbn [reads map select_round]. unfold bind.
    rewrite (handle_readable_data c _ w d).
    + fold (reads c ds). rewrite IH; [| exact Hc | exact Hds'].
      f_equal. unfold set_data_queue. fields. now rewrite <- app_assoc.
    + now apply Nat.eqb_neq.
    + reflexivity.
    + destruct d; [congruence | reflexivity].
Qed.

(** X11.  What the multiplexer reads is what the worker hears.  The
    reads of one round on the socket of the current client, each one cut
    at 4096 bytes, followed by a tick before the timeout: the buffer of
    the worker is the previous buffer followed by the bytes of the
    reads, in the order of the reads. *)
Theorem read_bytes_reach_the_buffer (rate width : Z) (c : socket)
  (ds : list bytes) (w : World) :
  c <> serversocket w ->
  Forall (fun d => d <> []) ds ->
  ds <> [] ->
  data_queue w = [] ->
  current_client (transcriber w) = Some c ->
  phrase_timed_out (transcriber w) (utcnow_reading (clock_reads w)) = false ->
  let r := (select_round (reads c ds) ;; worker_tick rate width) w in
  fst r = Return tt /\
  last_sample (transcriber (snd r)) =
    last_sample (transcriber w) ++ List.concat (map (firstn 4096) ds) /\
  data_queue (snd r) = [] /\
  finalized (events_since (List.length (trace w)) (snd r)) = [].
Proof.
  intros Hc Hds Hne Hq Hcc Hto r.
  set (items := map (fun d => (c, firstn 4096 d)) ds).
  set (w1 := set_data_queue (data_queue w ++ items) w).
  assert (Hitems : data_queue w1 = items).
  { subst w1. fields. now rewrite Hq. }
  assert (Hall : all_from c items = true).
  { subst items. unfold all_from. rewrite forallb_forall.
    intros it Hin. apply in_map_iff in Hin. destruct Hin as (d & <- & _).
    apply Nat.eqb_refl. }
  assert (Hchunks : chunks items = List.concat (map (firstn 4096) ds)).
  { subst items. unfold chunks. now rewrite map_map. }
  assert (Hrun : r = worker_tick rate width w1).
  { subst r. unfold bind. now rewrite (select_round_reads c ds w Hc Hds). }
  pose proof (continuation_tick_run rate width c w1) as Htick.
  rewrite Hitems in Htick.
  specialize (Htick Hcc Hall).
  assert (Hne' : items <> []).
  { subst items. destruct ds; [congruence | discriminate]. }
  specialize (Htick Hne' Hto).
  rewrite Hrun, Htick, transcribe_not_complete.
  set (w2 := drained c (chunks items) (set_clock_reads (S (clock_reads w1)) w1)).
  assert (Hbuf : last_sample (transcriber w2) =
                 last_sample (transcriber w) ++ List.concat (map (firstn 4096) ds)).
  { subst w2. unfold drained, appended. fields. now rewrite Hchunks. }
  destruct (transcribe_text (last_sample (transcriber w2)) rate width)
    as [e | [text dt]].
  - split; [reflexivity |]. split; [exact Hbuf |]. split; [reflexivity |].
    rewrite (events_since_app w _ []); [reflexivity |].
    simpl. now rewrite app_nil_r.
  - destruct (truthy_str text).
    + split; [reflexivity |]. split; [exact Hbuf |]. split; [reflexivity |].
      rewrite (events_since_app w _ [TranscriptionUpdate false text dt]);
        reflexivity.
    + split; [reflexivity |]. split; [exact Hbuf |]. split; [reflexivity |].
      rewrite (events_since_app w _ []); [reflexivity |].
      simpl. now rewrite app_nil_r.
Qed.

End Continuation.

Lemma continuation_tick_witness :
  current_client (transcriber talking_on) = Some 5 /\
  all_from 5 (data_queue talking_on) = true /\
  data_queue talking_on <> [] /\
  phrase_timed_out (transcriber talking_on)
    (@utcnow_reading hello_env (clock_reads talking_on)) = false /\
  (let r := @worker_tick hello_env 16000 2 talking_on in
   fst r = Return tt /\
   last_sample (transcriber (snd r)) = [x01; x02; x03] /\
   phrase_time (transcriber (snd r)) = Some 0%Z /\
   current_client (transcriber (snd r)) = Some 5 /\
   data_queue (snd r) = [] /\
   events_since 0 (snd r) = [TranscriptionUpdate false "hello" 3%Z] /\
   recent_transcription (transcriber (snd r)) = "hello").
Proof.
  assert (Hne : data_queue talking_on <> []) by discriminate.
  do 2 (split; [reflexivity |]). split; [exact Hne |].
  split; [reflexivity |].
  exact (@continuation_tick hello_env 16000 2 5 talking_on
           eq_refl eq_refl Hne eq_refl).
Defined.

Lemma read_bytes_reach_the_buffer_witness :
  5 <> serversocket talking /\
  Forall (fun d : bytes => d <> []) [[x02]; [x03]] /\
  (let r := (select_round (reads 5 [[x02]; [x03]]) ;;
             @worker_tick hello_env 16000 2) talking in
   fst r = Return tt /\
   last_sample (transcriber (snd r)) = [x01; x02; x03] /\
   data_queue (snd r) = [] /\
   finalized (events_since 0 (snd r)) = []).
Proof.
  assert (H1 : 5 <> serversocket talking) by (simpl; discriminate).
  assert (H2 : Forall (fun d : bytes => d <> []) [[x02]; [x03]])
    by (repeat constructor; discriminate).
  assert (H3 : [[x02]; [x03]] <> @nil bytes) by discriminate.
  split; [exact H1 |]. split; [exact H2 |].
  exact (@read_bytes_reach_the_buffer hello_env 16000 2 5 [[x02]; [x03]]
           talking H1 H2 H3 eq_refl eq_refl eq_refl).
Defined.

(** ** Clients are kept apart *)

Section Isolation.

Context {env : Environment}.

Lemma drain_after_switch (b c : socket) (db d : bytes)
  (run : list (socket * bytes)) (pre : list (socket * bytes)) :
  b <> c ->
  all_from c run = true ->
  forall w : World,
    profile_loaded w = true ->
    exists w',
      concatenate_loop (pre ++ (b, db) :: (c, d) :: run) w = (Return tt, w') /\
      last_sample (transcriber w') = d ++ chunks run /\
      current_client (transcriber w') = Some c /\
      recent_transcription (transcriber w') = "" /\
      data_queue w' = [].
Proof.
  intros Hbc Hall. induction pre as [| [x dx] pre IH]; intros w Hl.
  - cbn [app concatenate_loop]. unfold bind at 1. unfold modify at 1.
    unfold bind at 1.
    destruct (concatenate_item_general b db (set_data_queue ((c, d) :: run) w) Hl)
      as (w1 & Hw1 & Hl1 & Hc1 & _).
    rewrite Hw1. unfold bind at 1. unfold modify at 1. unfold bind at 1.
    rewrite (concatenate_item_switch c d (set_data_queue run w1)).
    + rewrite (concatenate_loop_same c run);
        [| reflexivity | reflexivity | exact Hall].
      eexists. split; [reflexivity |]. repeat split.
    + fields. rewrite Hc1. simpl. apply Nat.eqb_neq. congruence.
    + exact Hl1.
  - cbn [app concatenate_loop]. unfold bind at 1. unfold modify at 1.
    unfold bind at 1.
    destruct (concatenate_item_general x dx
                (set_data_queue (pre ++ (b, db) :: (c, d) :: run) w) Hl)
      as (w1 & Hw1 & Hl1 & _).
    rewrite Hw1. exact (IH w1 Hl1).
Qed.

(** X12.  The buffer never mixes the audio of two clients.  When the
    queue ends with chunks of the client [c] that follow a chunk of
    another client, the drain loop leaves in the buffer the chunks of
    that last run of [c] and nothing else, whatever was in the buffer
    and in the queue before; [c] owns the buffer and no text is
    pending. *)
Theorem drain_keeps_clients_apart (b c : socket) (db d : bytes)
  (pre run : list (socket * bytes)) (w : World) :
  profile_loaded w = true ->
  data_queue w = pre ++ (b, db) :: (c, d) :: run ->
  b <> c ->
  all_from c run = true ->
  let r := __concatenate_new_audio__ w in
  fst r = Return tt /\
  last_sample (transcriber (snd r)) = d ++ chunks run /\
  current_client (transcriber (snd r)) = Some c /\
  recent_transcription (transcriber (snd r)) = "" /\
  data_queue (snd r) = [].
Proof.
  intros Hl Hq Hbc Hall r. subst r.
  unfold __concatenate_new_audio__, bind, get. rewrite Hq.
  destruct (drain_after_switch b c db d run pre Hbc Hall w Hl)
    as (w' & -> & H).
  split; [reflexivity | exact H].
Qed.

End Isolation.

Lemma drain_keeps_clients_apart_witness :
  let w := set_data_queue [(5, [x02]); (6, [x03]); (6, [x04])] talking in
  profile_loaded w = true /\
  5 <> 6 /\
  (let r := @__concatenate_new_audio__ hello_env w in
   fst r = Return tt /\
   last_sample (transcriber (snd r)) = [x03; x04] /\
   current_client (transcriber (snd r)) = Some 6 /\
   recent_transcription (transcriber (snd r)) = "" /\
   data_queue (snd r) = []).
Proof.
  assert (H : 5 <> 6) by discriminate.
  split; [reflexivity |]. split; [exact H |].
  exact (@drain_keeps_clients_apart hello_env 5 6 [x02] [x03] []
           [(6, [x04])]
           (set_data_queue [(5, [x02]); (6, [x03]); (6, [x04])] talking)
           eq_refl eq_refl H eq_refl).
Defined.

(** ** The synthesis queue and the voice profile *)

Section QueueAndProfile.

Context {env : Environment}.

Lemma run_call_keeps_queue_loaded (c : tts_call) (w : World) :
  task_queue (text_to_speech w) = [] \/ profile_loaded w = true ->
  task_queue (text_to_speech (snd (run_call c w))) = [] \/
  profile_loaded (snd (run_call c w)) = true.
Proof.
  intros H. destruct c as [| text client | o]; cbn [run_call].
  - right. reflexivity.
  - destruct (profile_loaded w) eqn:Hl.
    + right. rewrite (synthesise_loaded text client w Hl).
      unfold profile_loaded in *. exact Hl.
    + destruct (synthesise_not_loaded text client w Hl) as [e ->].
      cbn [snd]. destruct H as [H | H]; [now left | congruence].
  - destruct H as [H | H].
    + left. unfold worker_iteration, bind, get. now rewrite H.
    + right. exact (worker_iteration_keeps o w H).
Qed.

(** X13.  [TextToSpeechModel.__init__] starts the worker before the
    voice profile is loaded.  Whatever calls of
    [load_speaker_embeddings] and [synthesise] follow, in whatever
    order and with the iterations of the worker in between, a task is
    in the queue only when the profile is loaded: the worker never
    takes a task that it has no profile for. *)
Theorem queued_task_has_profile (calls : list tts_call) (w0 : World) :
  let w := run_calls calls (snd (TextToSpeechModel__init__ w0)) in
  task_queue (text_to_speech w) = [] \/ profile_loaded w = true.
Proof.
  cbv zeta.
  assert (H0 : task_queue (text_to_speech (snd (TextToSpeechModel__init__ w0)))
               = [] \/
               profile_loaded (snd (TextToSpeechModel__init__ w0)) = true)
    by (left; reflexivity).
  revert H0. generalize (snd (TextToSpeechModel__init__ w0)).
  induction calls as [| c calls IH]; intros w H; cbn [run_calls].
  - exact H.
  - apply IH. apply run_call_keeps_queue_loaded. exact H.
Qed.

End QueueAndProfile.

(** ** A flush and new chunks in one tick *)

Section FlushAndTake.

Context {env : Environment}.

(** X14.  When the idle flush fires in a tick that also takes chunks of
    the same client, the boundary check that follows finds
    [phrase_time] just reset and returns [False]: the previous text is
    finalized, the buffer holds the new chunks only, and the first
    update of the new phrase is reported with [add = False]. *)
Theorem flush_then_take_reports_no_new_line (rate width : Z) (c : socket)
  (text : string) (dt : Z) (w : World) :
  profile_loaded w = true ->
  current_client (transcriber w) = Some c ->
  all_from c (data_queue w) = true ->
  data_queue w <> [] ->
  (0 <= phrase_timeout (transcriber w))%Z ->
  phrase_timed_out (transcriber w) (utcnow_reading (clock_reads w)) = true ->
  truthy_str (recent_transcription (transcriber w)) = true ->
  transcribe_text (chunks (data_queue w)) rate width = inr (text, dt) ->
  truthy_str text = true ->
  let r := worker_tick rate width w in
  fst r = Return tt /\
  events_since (List.length (trace w)) (snd r) =
    [FinalizedPhrase (recent_transcription (transcriber w)) (Some c);
     TranscriptionUpdate false text dt] /\
  last_sample (transcriber (snd r)) = chunks (data_queue w) /\
  recent_transcription (transcriber (snd r)) = text.
Proof.
  intros Hl Hc Hall Hne H0 Hto Hrec He Ht r. subst r.
  rewrite (tick_with_flush rate width c w Hl Hc Hall H0 Hto Hrec).
  destruct (data_queue w) as [| it q] eqn:Hq; [congruence |].
  rewrite transcribe_not_complete.
  change (last_sample (transcriber
            (drained c (chunks (it :: q))
               (flushed_world (utcnow_reading (clock_reads w))
                  (set_clock_reads (S (clock_reads w)) w)))))
    with (chunks (it :: q)).
  rewrite He, Ht. cbn [fst snd].
  split; [reflexivity |]. split; [| split; reflexivity].
  apply events_since_app. unfold drained, flushed_world, finalized_world.
  fields. rewrite Hc. now rewrite <- app_assoc.
Qed.

End FlushAndTake.

Lemma flush_then_take_reports_no_new_line_witness :
  profile_loaded talking_again = true /\
  data_queue talking_again <> [] /\
  (0 <= phrase_timeout (transcriber talking_again))%Z /\
  phrase_timed_out (transcriber talking_again)
    (@utcnow_reading hello_env (clock_reads talking_again)) = true /\
  (let r := @worker_tick hello_env 16000 2 talking_again in
   fst r = Return tt /\
   events_since 0 (snd r) =
     [FinalizedPhrase "hello" (Some 5);
      TranscriptionUpdate false "hello" 3%Z] /\
   last_sample (transcriber (snd r)) = [x02; x03] /\
   recent_transcription (transcriber (snd r)) = "hello").
Proof.
  assert (Hne : data_queue talking_again <> []) by discriminate.
  assert (H0 : (0 <= phrase_timeout (transcriber talking_again))%Z)
    by (simpl; lia).
  split; [reflexivity |]. split; [exact Hne |]. split; [exact H0 |].
  split; [reflexivity |].
  exact (@flush_then_take_reports_no_new_line hello_env 16000 2 5 "hello" 3%Z
           talking_again eq_refl eq_refl eq_refl Hne H0 eq_refl eq_refl
           eq_refl eq_refl).
Defined.
